(** * Per-diem calculation engine (backend/services/german_travel_rules.py)

    A shallow embedding of [GermanTravelRulesService] and of the values it
    computes with, followed by the properties of the engine.

    Conventions of the embedding.
    - A [Decimal] is a finite value, a coefficient and an exponent, as
      Python's [decimal] keeps it; NaN, the infinities and the sign of a
      zero are not represented.  The arithmetic is exact, as the source's
      is up to the context precision of 28 digits, which sums of the
      configured per-diem rates over calendar spans stay far below.
    - A calendar [date] is its proleptic Gregorian ordinal
      ([date.toordinal()]); adding a day to the last date, 9999-12-31,
      raises [OverflowError] as it does in Python.
    - The timestamps of a segment are naive [datetime] values: such a value
      is the number of microseconds on the time line of the dates, and
      order, subtraction and [.date()] are those of Python on naive values.
      Values that carry a [tzinfo] are outside the embedding.
    - An exception is a value of [exn]; a function that can raise returns a
      [result].
    - A trace line is kept as the name of its f-string template together with
      the interpolated values, in the order the source interpolates them. *)

From Stdlib Require Import ZArith QArith Lia Permutation Ascii.
From stdpp Require Import gmap strings list fin_maps sorting.

Local Open Scope Z_scope.

(** ** Decimal *)

Record Decimal := mkDec { coef : Z; expo : Z }.

(** [Decimal("0.00")], [Decimal("0.01")] and the like: [cents n] is n/100
    written with two places. *)
Definition cents (n : Z) : Decimal := mkDec n (-2).

Definition dec_of_Z (n : Z) : Decimal := mkDec n 0.

(** Coefficient of [d] once rescaled to the exponent [e <= expo d]. *)
Definition scaled (d : Decimal) (e : Z) : Z := coef d * 10 ^ (expo d - e).

Definition dec_add (a b : Decimal) : Decimal :=
  let e := Z.min (expo a) (expo b) in
  mkDec (scaled a e + scaled b e) e.

Definition dec_sub (a b : Decimal) : Decimal :=
  let e := Z.min (expo a) (expo b) in
  mkDec (scaled a e - scaled b e) e.

Definition dec_mul (a b : Decimal) : Decimal :=
  mkDec (coef a * coef b) (expo a + expo b).

Definition dec_abs (a : Decimal) : Decimal := mkDec (Z.abs (coef a)) (expo a).

Definition dec_leb (a b : Decimal) : bool :=
  let e := Z.min (expo a) (expo b) in scaled a e <=? scaled b e.

Definition dec_ltb (a b : Decimal) : bool :=
  let e := Z.min (expo a) (expo b) in scaled a e <? scaled b e.

(** Truth value of a Decimal ([if day_total:]) and [total == 0]. *)
Definition dec_truthy (a : Decimal) : bool := negb (coef a =? 0).
Definition dec_is_zero (a : Decimal) : bool := coef a =? 0.

(** [value.quantize(Decimal(10) ** e, rounding=ROUND_HALF_UP)] on a finite
    value: pad with zeros when the value is coarser than the target,
    otherwise drop digits and round the magnitude, ties away from zero.
    The result is the one of the source as long as its coefficient has at
    most 28 digits; beyond that the source signals [InvalidOperation]. *)
Definition quantize_half_up (e : Z) (d : Decimal) : Decimal :=
  if e <=? expo d then mkDec (scaled d e) e
  else
    let p := 10 ^ (e - expo d) in
    let q := Z.abs (coef d) / p in
    let r := Z.abs (coef d) mod p in
    let q' := if p <=? 2 * r then q + 1 else q in
    mkDec (Z.sgn (coef d) * q') e.

(** def _money(value) *)
Definition _money (value : Decimal) : Decimal := quantize_half_up (-2) value.

Definition dec_sum (l : list Decimal) : Decimal :=
  fold_left dec_add l (cents 0).

(** ** Dates and times *)

Abbreviation date := Z.
Abbreviation datetime := Z.

Definition US_PER_DAY : Z := 86400000000.

(** [t.date()] *)
Definition date_of (t : datetime) : date := t / US_PER_DAY.

(** [end - start], as a count of microseconds. *)
Abbreviation timedelta := Z.
Definition dt_sub (e s : datetime) : timedelta := e - s.

(** [duration.total_seconds()].  Python returns the float nearest to this
    quotient; rounding to nearest is monotone and 28800.0 is a float, so the
    comparison against eight hours made below is the one on exact values. *)
Definition total_seconds (td : timedelta) : Q := Qmake td 1000000.

(** Calendar constructors, after [datetime._ymd2ord]. *)
Definition _is_leap (year : Z) : bool :=
  (year mod 4 =? 0) && (negb (year mod 100 =? 0) || (year mod 400 =? 0)).

Definition _days_before_year (year : Z) : Z :=
  let y := year - 1 in y * 365 + y / 4 - y / 100 + y / 400.

Definition _DAYS_BEFORE_MONTH : list Z :=
  [0; 0; 31; 59; 90; 120; 151; 181; 212; 243; 273; 304; 334].

Definition _days_before_month (year month : Z) : Z :=
  nth (Z.to_nat month) _DAYS_BEFORE_MONTH 0
  + (if (2 <? month) && _is_leap year then 1 else 0).

Definition _ymd2ord (year month day : Z) : date :=
  _days_before_year year + _days_before_month year month + day.

(** [datetime(year, month, day, hour, minute)] *)
Definition mk_datetime (year month day hour minute : Z) : datetime :=
  _ymd2ord year month day * US_PER_DAY + (hour * 3600 + minute * 60) * 1000000.

(** ** Constants of the module *)

Definition RULE_VERSION : string := "DE_TRAVEL_RULES_2026_01".

Definition DOMESTIC_FULL_DAY_RATE : Decimal := cents 2800.
Definition DOMESTIC_PARTIAL_DAY_RATE : Decimal := cents 1400.

Inductive meal := breakfast_key | lunch_key | dinner_key.

(** A dict iterates in insertion order. *)
Definition MEAL_DEDUCTION_RATES : list (meal * Decimal) :=
  [(breakfast_key, cents 20); (lunch_key, cents 40); (dinner_key, cents 40)].

Record RateSet := mkRates { full_day : Decimal; partial_day : Decimal }.

Definition INTERNATIONAL_RATE_TABLE : gmap string RateSet :=
  list_to_map
    [("AT"%string, mkRates (cents 4000) (cents 2700));
     ("CH"%string, mkRates (cents 6400) (cents 4300));
     ("FR"%string, mkRates (cents 5300) (cents 3500));
     ("NL"%string, mkRates (cents 4700) (cents 3200))].

(** ** Input records *)

Record Receipt := mkReceipt { receipt_id : string; amount : Decimal }.

Record DayMealProvision := mkMeals {
  day : date;
  breakfast : bool;
  lunch : bool;
  dinner : bool
}.

(** [start] and [end] are declared [datetime], but the validator tests them
    against [None], so the embedding lets them be missing. *)
Record TripSegment := mkSegment {
  trip_id : string;
  start : option datetime;
  end_ : option datetime;
  country_code : string;
  city : option string;
  provided_meals : list DayMealProvision;
  receipts : list Receipt
}.

(** ** Exceptions *)

Inductive exn :=
| TravelRuleValidationError (msg : string)
| AttributeError
| OverflowError.

Inductive result (A : Type) :=
| Ok (a : A)
| Raise (e : exn).
Arguments Ok {A} a.
Arguments Raise {A} e.

Definition bind {A B} (m : result A) (k : A -> result B) : result B :=
  match m with
  | Ok a => k a
  | Raise e => Raise e
  end.

Notation "'call' x <- m ; k" := (bind m (fun x => k))
  (at level 10, x pattern, m at level 100, k at level 200,
   format "'[v' 'call'  x  <-  m ; '/' k ']'").
Notation "'check' m ; k" := (bind m (fun _ => k))
  (at level 10, m at level 100, k at level 200,
   format "'[v' 'check'  m ; '/' k ']'").

(** A [for] loop whose body can raise, threading the variables it updates. *)
Fixpoint for_each {A S} (body : S -> A -> result S) (l : list A) (s : S)
  : result S :=
  match l with
  | [] => Ok s
  | x :: rest => call s' <- body s x; for_each body rest s'
  end.

(** ** Trace lines

    One constructor per f-string of the source, holding what the f-string
    interpolates. *)

Inductive trace_line :=
| RuleVersionLine (version : string)
    (* "Applying rule version: {version}" *)
| RatesLine (trip : string) (is_domestic : bool) (full partial : Decimal)
    (* "Trip {trip}: {domestic|international} rates (full_day=.., partial_day=..)." *)
| SingleDayPartialLine (d : date) (worked_hours : Q) (amount : Decimal)
    (* "Single-day trip {d}: absence {worked_hours:.2f}h >= 8h, partial-day rate {amount}." *)
| SingleDayZeroLine (d : date) (worked_hours : Q)
    (* "Single-day trip {d}: absence {worked_hours:.2f}h < 8h, no per diem." *)
| ArrivalDepartureLine (d : date) (partial : Decimal)
    (* "{d}: arrival/departure partial-day rate {partial}." *)
| FullDayLine (d : date) (full : Decimal)
    (* "{d}: full-day rate {full}." *)
| MealProvidedLine (d : date) (key : meal) (ratio deduction : Decimal)
    (* "{d}: {key} provided, deduct {ratio * 100:.0f}% of full-day rate = {deduction}." *)
| MealSubtotalLine (d : date) (day_total : Decimal)
    (* "{d}: meal deduction subtotal {day_total}." *)
| NoMealDeductionsLine (trip : string)
    (* "Trip {trip}: no meal deductions." *)
| TripSubtotalLine (trip : string) (day_allowance meal_deduction reimbursable : Decimal)
    (* "Trip {trip} subtotal = {day_allowance} - {meal_deduction} = {reimbursable}." *)
| OverallTotalLine (gross deductions net : Decimal).
    (* "Overall total = gross {gross} - deductions {deductions} = {net}." *)

(** ** Results

    The source stores every amount as [str(_money(x))]; the embedding keeps
    the two-place Decimal itself, which that string determines. *)

Module Trip.
Record t := mk {
  trip_id : string;
  country_code : string;
  gross_allowance : Decimal;
  meal_deductions : Decimal;
  net_allowance : Decimal;
  calculation_steps : list trace_line
}.
End Trip.

Module Totals.
Record t := mk {
  gross_allowance : Decimal;
  meal_deductions : Decimal;
  net_allowance : Decimal
}.
End Totals.

Record AggregateResult := mkResult {
  rule_version : string;
  totals : Totals.t;
  calculation_steps : list trace_line;
  by_trip : list Trip.t
}.

(** ** Rate Resolver *)

(** [str.upper()] on the ASCII letters.  No other character upper-cases to
    a letter of a configured country code, so the codes that the resolver
    accepts are those of the source; for a code with letters outside ASCII
    the text of the error message can differ. *)
Definition upper_char (c : ascii) : ascii :=
  let n := nat_of_ascii c in
  if ((97 <=? n) && (n <=? 122))%nat then ascii_of_nat (n - 32) else c.

Fixpoint upper (s : string) : string :=
  match s with
  | EmptyString => EmptyString
  | String c rest => String (upper_char c) (upper rest)
  end.

Definition _get_rates_for_country (country_code : string) : result RateSet :=
  let normalized := upper country_code in
  if String.eqb normalized "DE" then
    Ok (mkRates DOMESTIC_FULL_DAY_RATE DOMESTIC_PARTIAL_DAY_RATE)
  else
    match INTERNATIONAL_RATE_TABLE !! normalized with
    | None =>
        Raise (TravelRuleValidationError
          ("No international per-diem rates configured for country code "
             +:+ normalized +:+ "."))
    | Some rates => Ok rates
    end.

(** ** Validator *)

(** [sorted(segments, key=lambda s: s.start)]: a stable sort, written as
    insertion from the right.  Python raises [TypeError] when a key is
    [None]; every sort of the engine runs after [_validate_segments] has
    turned such segments down, so the comparison below never meets one. *)
Definition key_ltb (a b : option datetime) : bool :=
  match a, b with
  | Some x, Some y => x <? y
  | _, _ => false
  end.

Fixpoint insert_by_start (x : TripSegment) (l : list TripSegment)
  : list TripSegment :=
  match l with
  | [] => [x]
  | y :: rest =>
      if key_ltb (start y) (start x) then y :: insert_by_start x rest
      else x :: y :: rest
  end.

Definition sorted_by_start (segments : list TripSegment) : list TripSegment :=
  foldr insert_by_start [] segments.

(** f"Trips {prev.trip_id} and {current.trip_id} overlap." *)
Definition overlap_message (prev current : TripSegment) : string :=
  "Trips " +:+ trip_id prev +:+ " and " +:+ trip_id current +:+ " overlap.".

(** Body of [for prev, current in zip(ordered, ordered[1:])]. *)
Definition adjacent_check : unit -> TripSegment * TripSegment -> result unit :=
  fun _ '(prev, current) =>
    if key_ltb (start current) (end_ prev) then
      Raise (TravelRuleValidationError (overlap_message prev current))
    else Ok tt.

Definition _validate_overlaps (segments : list TripSegment) : result unit :=
  let ordered := sorted_by_start segments in
  for_each adjacent_check (zip ordered (tail ordered)) tt.

(** f"Duplicate receipt id {rid} in trips {owner} and {trip}." *)
Definition duplicate_message (rid owner trip : string) : string :=
  "Duplicate receipt id " +:+ rid +:+ " in trips " +:+ owner +:+ " and "
    +:+ trip +:+ ".".

(** Body of [for receipt in segment.receipts], for the segment of trip id
    [trip]; [seen] is the dict the two loops share. *)
Definition receipt_check (trip : string) (seen : gmap string string)
  (receipt : Receipt) : result (gmap string string) :=
  let owner := seen !! receipt_id receipt in
  match owner with
  | Some owner =>
      Raise (TravelRuleValidationError
        (duplicate_message (receipt_id receipt) owner trip))
  | None => Ok (<[receipt_id receipt := trip]> seen)
  end.

Definition _validate_duplicate_receipts (segments : list TripSegment)
  : result unit :=
  call _ <-
    for_each
      (fun seen segment =>
         for_each (receipt_check (trip_id segment)) (receipts segment) seen)
      segments ∅;
  Ok tt.

(** Body of the first [for segment in segments] of [_validate_segments]. *)
Definition timing_check : unit -> TripSegment -> result unit :=
  fun _ segment =>
    match start segment, end_ segment with
    | Some s, Some e =>
        if e <=? s then
          Raise (TravelRuleValidationError
            ("Trip " +:+ trip_id segment
               +:+ " has impossible time span (end before/equal start)."))
        else Ok tt
    | _, _ =>
        Raise (TravelRuleValidationError
          ("Trip " +:+ trip_id segment +:+ " has missing start/end datetime."))
    end.

Definition _validate_segments (segments : list TripSegment) : result unit :=
  match segments with
  | [] =>
      Raise (TravelRuleValidationError "At least one trip segment is required.")
  | _ =>
      check for_each timing_check segments tt;
      check _validate_overlaps segments;
      _validate_duplicate_receipts segments
  end.

(** ** Day Allocator *)

(** The dates visited by [current = first; while current <= last: ...;
    current += timedelta(days=1)], in order. *)
Definition days_span (first last : date) : list date :=
  seqZ first (last - first + 1).

(** [date.max.toordinal()], the ordinal of 9999-12-31. *)
Definition MAXORDINAL : Z := 3652059.

(** [current + timedelta(days=1)]: Python refuses a result past
    [date.max].  (It also refuses an ordinal below 1, which adding a day to
    a date cannot give.) *)
Definition next_day (current : date) : result date :=
  if current <? MAXORDINAL then Ok (current + 1)
  else Raise OverflowError.

(** [current = first; while current <= last: <body>; current +=
    timedelta(days=1)], with [s] the variables the body updates.  The step
    closes every pass, the one for [last] included, so the loop raises when
    it has to step past [date.max]. *)
Definition for_each_day {S} (body : S -> date -> S) (first last : date) (s : S)
  : result S :=
  for_each
    (fun s current =>
       let s := body s current in
       check next_day current;
       Ok s)
    (days_span first last) s.

Definition _calculate_day_allowance (segment : TripSegment) (rates : RateSet)
  : result (Decimal * list trace_line) :=
  match start segment, end_ segment with
  | Some s, Some e =>
      let start_day := date_of s in
      let end_day := date_of e in
      if start_day =? end_day then
        let duration := dt_sub e s in
        let minimum_hours : Q := 8%Q in
        let worked_hours : Q := (total_seconds duration / 3600)%Q in
        if Qle_bool minimum_hours worked_hours then
          let amount := partial_day rates in
          Ok (_money amount,
              [SingleDayPartialLine start_day worked_hours amount])
        else
          let amount := cents 0 in
          Ok (_money amount, [SingleDayZeroLine start_day worked_hours])
      else
        call (total, steps) <-
          for_each_day
            (fun '(total, steps) current =>
               if (current =? start_day) || (current =? end_day) then
                 (dec_add total (partial_day rates),
                  steps ++ [ArrivalDepartureLine current (partial_day rates)])
               else
                 (dec_add total (full_day rates),
                  steps ++ [FullDayLine current (full_day rates)]))
            start_day end_day
            (cents 0, []);
        Ok (_money total, steps)
  | _, _ => Raise AttributeError
  end.

(** ** Meal Deduction Calculator *)

(** [getattr(meals, meal_key)] *)
Definition getattr (meals : DayMealProvision) (meal_key : meal) : bool :=
  match meal_key with
  | breakfast_key => breakfast meals
  | lunch_key => lunch meals
  | dinner_key => dinner meals
  end.

(** [{entry.day: entry for entry in provided_meals}]: a later entry
    replaces an earlier one for the same day. *)
Definition provided_by_day_of (provided_meals : list DayMealProvision)
  : gmap Z DayMealProvision :=
  fold_left (fun m entry => <[day entry := entry]> m) provided_meals ∅.

Definition _calculate_meal_deductions
  (segment : TripSegment) (full_day_rate : Decimal)
  : result (Decimal * list trace_line) :=
  let provided_by_day := provided_by_day_of (provided_meals segment) in
  match start segment, end_ segment with
  | Some s, Some e =>
      call (total, steps) <-
        for_each_day
          (fun '(total, steps) current_day =>
             match provided_by_day !! current_day with
             | None => (total, steps)
             | Some meals =>
                 let '(day_total, steps) :=
                   fold_left
                     (fun '(day_total, steps) '(meal_key, ratio) =>
                        if getattr meals meal_key then
                          let deduction := _money (dec_mul full_day_rate ratio) in
                          (dec_add day_total deduction,
                           steps ++ [MealProvidedLine current_day meal_key
                                       ratio deduction])
                        else (day_total, steps))
                     MEAL_DEDUCTION_RATES
                     (cents 0, steps) in
                 if dec_truthy day_total then
                   (dec_add total day_total,
                    steps ++ [MealSubtotalLine current_day day_total])
                 else (total, steps)
             end)
          (date_of s) (date_of e)
          (cents 0, []);
      let steps :=
        if dec_is_zero total then
          steps ++ [NoMealDeductionsLine (trip_id segment)]
        else steps in
      Ok (_money total, steps)
  | _, _ => Raise AttributeError
  end.

(** ** Aggregator *)

(** The variables the [for] loop of [calculate] updates. *)
Record loop_state := mkState {
  st_steps : list trace_line;
  st_by_trip : list Trip.t;
  st_gross_total : Decimal;
  st_meal_deduction_total : Decimal
}.

(** Body of [for segment in sorted(segments, key=lambda s: s.start)]. *)
Definition calculate_body (st : loop_state) (segment : TripSegment)
  : result loop_state :=
  call rates <- _get_rates_for_country (country_code segment);
  let is_domestic := String.eqb (upper (country_code segment)) "DE" in
  let segment_steps :=
    [RatesLine (trip_id segment) is_domestic
       (full_day rates) (partial_day rates)] in
  call (day_allowance, day_steps) <- _calculate_day_allowance segment rates;
  let segment_steps := segment_steps ++ day_steps in
  call (meal_deduction, meal_steps) <-
    _calculate_meal_deductions segment (full_day rates);
  let segment_steps := segment_steps ++ meal_steps in
  let reimbursable := _money (dec_sub day_allowance meal_deduction) in
  let gross_total := dec_add (st_gross_total st) day_allowance in
  let meal_deduction_total :=
    dec_add (st_meal_deduction_total st) meal_deduction in
  let segment_steps :=
    segment_steps
      ++ [TripSubtotalLine (trip_id segment) day_allowance meal_deduction
            reimbursable] in
  Ok (mkState
        (st_steps st ++ segment_steps)
        (st_by_trip st
           ++ [Trip.mk (trip_id segment) (upper (country_code segment))
                 (_money day_allowance) (_money meal_deduction)
                 reimbursable segment_steps])
        gross_total meal_deduction_total).

Definition calculate (segments : list TripSegment) : result AggregateResult :=
  check _validate_segments segments;
  let steps := [RuleVersionLine RULE_VERSION] in
  call st <-
    for_each calculate_body (sorted_by_start segments)
      (mkState steps [] (cents 0) (cents 0));
  let net_total :=
    _money (dec_sub (st_gross_total st) (st_meal_deduction_total st)) in
  let totals :=
    Totals.mk (_money (st_gross_total st))
      (_money (st_meal_deduction_total st)) net_total in
  let steps :=
    st_steps st
      ++ [OverallTotalLine (Totals.gross_allowance totals)
            (Totals.meal_deductions totals) (Totals.net_allowance totals)] in
  Ok (mkResult RULE_VERSION totals steps (st_by_trip st)).

(** def calculate_and_persist(self, segments) *)
Definition calculate_and_persist (segments : list TripSegment)
  : result AggregateResult :=
  call calculation <- calculate segments;
  Ok (mkResult RULE_VERSION (totals calculation)
        (calculation_steps calculation) (by_trip calculation)).

(** ** Running the engine on the examples of the documentation *)

Definition domestic_segment (tid : string) (s e : datetime)
  (meals : list DayMealProvision) : TripSegment :=
  mkSegment tid (Some s) (Some e) "DE" None meals [].

Definition three_day_trip : TripSegment :=
  domestic_segment "T1" (mk_datetime 2026 2 1 8 0) (mk_datetime 2026 2 3 18 0) [].

Definition three_day_trip_with_meals : TripSegment :=
  domestic_segment "T1" (mk_datetime 2026 2 1 8 0) (mk_datetime 2026 2 3 18 0)
    [mkMeals (_ymd2ord 2026 2 2) true true false].

(** * Vocabulary of the properties *)

(** Rates of the five configured countries. *)
Definition DOMESTIC_RATES : RateSet :=
  mkRates DOMESTIC_FULL_DAY_RATE DOMESTIC_PARTIAL_DAY_RATE.

Definition configured_rates : list RateSet :=
  [DOMESTIC_RATES;
   mkRates (cents 4000) (cents 2700);
   mkRates (cents 6400) (cents 4300);
   mkRates (cents 5300) (cents 3500);
   mkRates (cents 4700) (cents 3200)].

(** Eight hours, as a [timedelta]. *)
Definition EIGHT_HOURS : timedelta := 8 * 3600 * 1000000.

(** The record that speaks for a date: when several entries of
    [provided_meals] carry the same day, the last one. *)
Definition record_for (meals : list DayMealProvision) (d : date)
  : option DayMealProvision :=
  List.find (fun entry => day entry =? d) (rev meals).

(** Deduction of one date, as the documentation words it: 20% of the
    full-day rate for breakfast, 40% for lunch, 40% for dinner, each
    rounded to the cent; nothing for a date without a record. *)
Definition day_deduction (full_day_rate : Decimal)
  (meals : list DayMealProvision) (d : date) : Decimal :=
  match record_for meals d with
  | None => cents 0
  | Some m =>
      dec_sum
        [if breakfast m then _money (dec_mul full_day_rate (cents 20))
         else cents 0;
         if lunch m then _money (dec_mul full_day_rate (cents 40))
         else cents 0;
         if dinner m then _money (dec_mul full_day_rate (cents 40))
         else cents 0]
  end.

(** A trip from 23:00 to 01:00 of the next day: two partial days. *)
Definition overnight_trip : TripSegment :=
  domestic_segment "N1" (mk_datetime 2026 2 1 23 0) (mk_datetime 2026 2 2 1 0) [].

Definition short_day_trip : TripSegment :=
  domestic_segment "S1" (mk_datetime 2026 2 1 9 0) (mk_datetime 2026 2 1 16 59) [].

Definition long_day_trip : TripSegment :=
  domestic_segment "S2" (mk_datetime 2026 2 1 9 0) (mk_datetime 2026 2 1 17 0) [].

(** Timing of one segment. *)
Definition valid_timing (seg : TripSegment) : Prop :=
  exists s e, start seg = Some s /\ end_ seg = Some e /\ s < e.

Definition bad_timing (seg : TripSegment) : Prop :=
  start seg = None \/ end_ seg = None
  \/ exists s e, start seg = Some s /\ end_ seg = Some e /\ e <= s.

(** Two segments share time: each starts before the other ends. *)
Definition overlaps (a b : TripSegment) : Prop :=
  exists sa ea sb eb,
    start a = Some sa /\ end_ a = Some ea /\
    start b = Some sb /\ end_ b = Some eb /\
    sa < eb /\ sb < ea.

(** [a] is over when [b] starts. *)
Definition precedes (a b : TripSegment) : Prop :=
  valid_timing a /\ valid_timing b /\
  exists ea sb, end_ a = Some ea /\ start b = Some sb /\ ea <= sb.

(** Two entries at different positions of [l] are related by [R]. *)
Definition some_pair {A} (R : A -> A -> Prop) (l : list A) : Prop :=
  exists i j a b, i <> j /\ l !! i = Some a /\ l !! j = Some b /\ R a b.

(** All the receipts of a batch, in the order the validator scans them. *)
Definition all_receipts (segments : list TripSegment) : list Receipt :=
  flat_map receipts segments.

Definition same_receipt_id (a b : Receipt) : Prop :=
  receipt_id a = receipt_id b.

Definition unsupported_country (seg : TripSegment) : Prop :=
  upper (country_code seg) <> "DE"%string
  /\ INTERNATIONAL_RATE_TABLE !! upper (country_code seg) = None.

(** The pairs (receipt id, owning trip) of a batch, in scan order. *)
Definition batch_entries (segments : list TripSegment)
  : list (string * string) :=
  flat_map
    (fun seg => map (fun r => (receipt_id r, trip_id seg)) (receipts seg))
    segments.

(** Example batches. *)
Definition morning_trip : TripSegment :=
  domestic_segment "A" (mk_datetime 2026 3 2 8 0) (mk_datetime 2026 3 2 10 0) [].

Definition midday_trip : TripSegment :=
  domestic_segment "B" (mk_datetime 2026 3 2 10 0) (mk_datetime 2026 3 2 12 0) [].

Definition late_morning_trip : TripSegment :=
  domestic_segment "C" (mk_datetime 2026 3 2 11 0) (mk_datetime 2026 3 2 13 0) [].

Definition short_trip_with_breakfast : TripSegment :=
  mkSegment "S3" (Some (mk_datetime 2026 3 5 9 0))
    (Some (mk_datetime 2026 3 5 12 0)) "at" None
    [mkMeals (_ymd2ord 2026 3 5) true false false] [].




Definition two_trip_batch : list TripSegment :=
  [short_trip_with_breakfast; three_day_trip_with_meals].

(** What [calculate] returns on [two_trip_batch]. *)
Definition two_trip_result : AggregateResult :=
  Eval vm_compute in
    match calculate two_trip_batch with
    | Ok r => r
    | Raise _ => mkResult "" (Totals.mk (cents 0) (cents 0) (cents 0)) [] []
    end.

(** Notions used by the proofs. *)

(** What the sort guarantees between neighbours: the later one does not
    start before the earlier one. *)
Definition not_after (a b : TripSegment) : Prop :=
  key_ltb (start b) (start a) = false.

(** The duplicate check on one pair (receipt id, owning trip). *)
Definition entry_check (seen : gmap string string) (entry : string * string)
  : result (gmap string string) :=
  let '(rid, trip) := entry in
  match seen !! rid with
  | Some owner =>
      Raise (TravelRuleValidationError (duplicate_message rid owner trip))
  | None => Ok (<[rid := trip]> seen)
  end.

(** No id of [es] occurs twice or is already in [seen]. *)
Definition fresh_ids (seen : gmap string string) (es : list (string * string))
  : Prop :=
  NoDup es.*1 /\ forall k, k ∈ es.*1 -> seen !! k = None.

(** What the validator asks of a batch, and what makes it turn one down. *)
Definition batch_accepted (segments : list TripSegment) : Prop :=
  segments <> []
  /\ Forall valid_timing segments
  /\ ~ some_pair overlaps segments
  /\ NoDup (map receipt_id (all_receipts segments)).

Definition batch_rejected (segments : list TripSegment) : Prop :=
  segments = []
  \/ Exists bad_timing segments
  \/ some_pair overlaps segments
  \/ some_pair same_receipt_id (all_receipts segments).

(** The entry [calculate_body] appends to [by_trip]. *)
Definition trip_entry (seg : TripSegment) (g d : Z) (steps : list trace_line)
  : Trip.t :=
  Trip.mk (trip_id seg) (upper (country_code seg))
    (cents g) (cents d) (cents (g - d)) steps.

(** Every country code of the batch resolves to a rate set. *)
Definition batch_supported (segments : list TripSegment) : Prop :=
  Forall (fun seg => ~ unsupported_country seg) segments.

(** Invariant of the loop of [calculate]: the running totals are the sums
    of the per-trip amounts collected so far. *)
Definition balanced (st : loop_state) : Prop :=
  exists G D,
    st_gross_total st = cents G
    /\ st_meal_deduction_total st = cents D
    /\ dec_sum (map Trip.gross_allowance (st_by_trip st)) = cents G
    /\ dec_sum (map Trip.meal_deductions (st_by_trip st)) = cents D
    /\ dec_sum (map Trip.net_allowance (st_by_trip st)) = cents (G - D).

(** [a] starts no later than [b]. *)
Definition starts_le (a b : TripSegment) : Prop :=
  exists sa sb, start a = Some sa /\ start b = Some sb /\ sa <= sb.

(** Notions used by the further properties. *)

(** [d] lies in the calendar span of a segment from [s] to [e]. *)
Definition in_span (s e : datetime) (d : date) : bool :=
  (date_of s <=? d) && (d <=? date_of e).

(** [dataclasses.replace(seg, provided_meals=meals)] *)
Definition with_meals (seg : TripSegment) (meals : list DayMealProvision)
  : TripSegment :=
  mkSegment (trip_id seg) (start seg) (end_ seg) (country_code seg) (city seg)
    meals (receipts seg).

(** f"No international per-diem rates configured for country code {code}." *)
Definition unsupported_message (code : string) : string :=
  "No international per-diem rates configured for country code "
    +:+ code +:+ ".".

(** The two messages of the timing check. *)
Definition missing_message (seg : TripSegment) : string :=
  "Trip " +:+ trip_id seg +:+ " has missing start/end datetime.".

Definition impossible_message (seg : TripSegment) : string :=
  "Trip " +:+ trip_id seg
    +:+ " has impossible time span (end before/equal start).".

(** Example batches of the further properties. *)
Definition endless_trip : TripSegment :=
  mkSegment "E1" (Some (mk_datetime 2026 3 2 9 0)) None "DE" None [] [].

Definition backwards_trip : TripSegment :=
  domestic_segment "E2" (mk_datetime 2026 3 2 9 0) (mk_datetime 2026 3 2 9 0) [].

Definition trip_with_receipt (tid : string) (s e : datetime) (rid : string)
  : TripSegment :=
  mkSegment tid (Some s) (Some e) "DE" None [] [mkReceipt rid (cents 990)].

Definition hotel_trip : TripSegment :=
  trip_with_receipt "H1" (mk_datetime 2026 5 4 8 0) (mk_datetime 2026 5 4 18 0)
    "inv-7".

Definition taxi_trip : TripSegment :=
  trip_with_receipt "H2" (mk_datetime 2026 5 6 8 0) (mk_datetime 2026 5 6 18 0)
    "inv-7".

(** The per-trip trace: the rates line, the lines of the day allocator,
    the lines of the meal calculator, the subtotal line. *)
Definition trip_steps (seg : TripSegment) (rates : RateSet)
  (day_allowance meal_deduction : Decimal) (day_steps meal_steps : list trace_line)
  : list trace_line :=
  RatesLine (trip_id seg) (String.eqb (upper (country_code seg)) "DE")
    (full_day rates) (partial_day rates)
  :: day_steps ++ meal_steps
  ++ [TripSubtotalLine (trip_id seg) day_allowance meal_deduction
        (dec_sub day_allowance meal_deduction)].

(** [t] is the entry that the loop of [calculate] builds for [seg]. *)
Definition entry_of (seg : TripSegment) (t : Trip.t) : Prop :=
  exists rates day_steps meal_steps,
    _get_rates_for_country (country_code seg) = Ok rates
    /\ _calculate_day_allowance seg rates
       = Ok (Trip.gross_allowance t, day_steps)
    /\ _calculate_meal_deductions seg (full_day rates)
       = Ok (Trip.meal_deductions t, meal_steps)
    /\ Trip.trip_id t = trip_id seg
    /\ Trip.country_code t = upper (country_code seg)
    /\ Trip.net_allowance t
       = dec_sub (Trip.gross_allowance t) (Trip.meal_deductions t)
    /\ Trip.calculation_steps t
       = trip_steps seg rates (Trip.gross_allowance t)
           (Trip.meal_deductions t) day_steps meal_steps.

(** The trace of the whole call: the version line, the per-trip traces in
    order, the line of the grand totals. *)
Definition framed_steps (r : AggregateResult) : list trace_line :=
  RuleVersionLine RULE_VERSION
  :: concat (map Trip.calculation_steps (by_trip r))
  ++ [OverallTotalLine (Totals.gross_allowance (totals r))
        (Totals.meal_deductions (totals r))
        (Totals.net_allowance (totals r))].

(** The trace line of the day allocator for the date [d] of a span from
    [first] to [last]. *)
Definition day_line (rates : RateSet) (first last d : date) : trace_line :=
  if (d =? first) || (d =? last) then ArrivalDepartureLine d (partial_day rates)
  else FullDayLine d (full_day rates).

(** A segment whose meal record of its second day is dated a week late. *)
Definition trip_with_stray_record : TripSegment :=
  domestic_segment "T1" (mk_datetime 2026 2 1 8 0) (mk_datetime 2026 2 3 18 0)
    [mkMeals (_ymd2ord 2026 2 2) true true false;
     mkMeals (_ymd2ord 2026 2 9) true true true].

(** The amounts of an entry are two-place, not negative, and the net
    allowance is the gross allowance less the deductions. *)
Definition entry_balanced (t : Trip.t) : Prop :=
  exists g d,
    Trip.gross_allowance t = cents g
    /\ Trip.meal_deductions t = cents d
    /\ Trip.net_allowance t = cents (g - d)
    /\ 0 <= g /\ 0 <= d.

(** A country code as the result reports it: already upper-case, and either
    DE or a key of the rate table. *)
Definition reported_code (code : string) : Prop :=
  upper code = code
  /\ (code = "DE"%string \/ is_Some (INTERNATIONAL_RATE_TABLE !! code)).

(** Three trips in three countries, the one to [ZZ] starting first. *)
Definition unsupported_batch : list TripSegment :=
  [mkSegment "U3" (Some (mk_datetime 2026 6 3 8 0))
     (Some (mk_datetime 2026 6 3 18 0)) "yy" None [] [];
   mkSegment "U1" (Some (mk_datetime 2026 6 1 8 0))
     (Some (mk_datetime 2026 6 1 18 0)) "nl" None [] [];
   mkSegment "U2" (Some (mk_datetime 2026 6 2 8 0))
     (Some (mk_datetime 2026 6 2 18 0)) "zz" None [] []].

(** The grand totals are two-place, the gross allowance and the deductions
    are not negative, and the net allowance is their difference. *)
Definition totals_balanced (r : AggregateResult) : Prop :=
  exists G D,
    Totals.gross_allowance (totals r) = cents G
    /\ Totals.meal_deductions (totals r) = cents D
    /\ Totals.net_allowance (totals r) = cents (G - D)
    /\ 0 <= G /\ 0 <= D.

(** The coefficient has at most 28 digits, the precision of the default
    context of [decimal]: [quantize] returns such results and signals
    [InvalidOperation] for longer ones. *)
Definition PREC : Z := 28.

Definition within_precision (d : Decimal) : Prop :=
  Z.abs (coef d) < 10 ^ PREC.

(** Notions for the end of the calendar. *)

(** The segment ends before 9999-12-31, the last date a [date] holds. *)
Definition ends_before_last_day (seg : TripSegment) : Prop :=
  forall e, end_ seg = Some e -> date_of e < MAXORDINAL.

(** The segment ends on that last date. *)
Definition ends_on_last_day (seg : TripSegment) : Prop :=
  exists e, end_ seg = Some e /\ MAXORDINAL <= date_of e.

(** Trips at the end of the calendar. *)
Definition last_night_trip : TripSegment :=
  domestic_segment "L1" (mk_datetime 9999 12 30 8 0)
    (mk_datetime 9999 12 31 18 0) [].

Definition last_day_trip : TripSegment :=
  domestic_segment "L2" (mk_datetime 9999 12 31 8 0)
    (mk_datetime 9999 12 31 18 0) [].

Definition last_day_trip_with_breakfast : TripSegment :=
  domestic_segment "L3" (mk_datetime 9999 12 31 8 0)
    (mk_datetime 9999 12 31 18 0)
    [mkMeals (_ymd2ord 9999 12 31) true false false].

Definition last_day_short_trip_with_breakfast : TripSegment :=
  domestic_segment "L4" (mk_datetime 9999 12 31 9 0)
    (mk_datetime 9999 12 31 12 0)
    [mkMeals (_ymd2ord 9999 12 31) true false false].

(** A domestic trip on the last date, followed by one to [zz]. *)
Definition last_day_batch : list TripSegment :=
  [domestic_segment "A" (mk_datetime 9999 12 31 8 0)
     (mk_datetime 9999 12 31 10 0) [];
   mkSegment "B" (Some (mk_datetime 9999 12 31 10 0))
     (Some (mk_datetime 9999 12 31 12 0)) "zz" None [] []].

(** * Properties *)

(** ** Two-place Decimals *)

Lemma cents_eta d : expo d = -2 -> d = cents (coef d).
Proof. destruct d as [c e]; simpl; intros ->; reflexivity. Qed.

Ltac dec_norm :=
  unfold dec_add, dec_sub, dec_mul, _money, quantize_half_up, scaled, cents,
    dec_of_Z;
  simpl;
  rewrite ?Z.min_id, ?Z.leb_refl, ?Z.sub_diag, ?Z.pow_0_r, ?Z.mul_1_r.

Lemma add_cents a b : dec_add (cents a) (cents b) = cents (a + b).
Proof. dec_norm. reflexivity. Qed.

Lemma sub_cents a b : dec_sub (cents a) (cents b) = cents (a - b).
Proof. dec_norm. reflexivity. Qed.

Lemma mul_Z_cents k a : dec_mul (dec_of_Z k) (cents a) = cents (k * a).
Proof. reflexivity. Qed.

Lemma money_cents a : _money (cents a) = cents a.
Proof. dec_norm. reflexivity. Qed.

Lemma money_expo d : expo (_money d) = -2.
Proof. unfold _money, quantize_half_up. destruct (_ <=? _); reflexivity. Qed.

Lemma money_idem d : _money (_money d) = _money d.
Proof. rewrite (cents_eta _ (money_expo d)). apply money_cents. Qed.

(** ** Rates *)

Lemma get_rates_configured c rates :
  _get_rates_for_country c = Ok rates -> rates ∈ configured_rates.
Proof.
  unfold _get_rates_for_country, configured_rates.
  destruct (String.eqb _ _).
  - intros [= <-]. left.
  - destruct (INTERNATIONAL_RATE_TABLE !! upper c) as [r|] eqn:E; [|discriminate].
    intros [= <-]. right.
    apply elem_of_list_to_map_2 in E.
    repeat (apply elem_of_cons in E as [[= _ <-]|E]; [set_solver|]).
    inversion E.
Qed.

Lemma configured_rates_cents rates :
  rates ∈ configured_rates ->
  exists f p, rates = mkRates (cents f) (cents p) /\ 0 < f /\ 0 < p.
Proof.
  unfold configured_rates. intros H.
  repeat (apply elem_of_cons in H as [->|H];
          [eexists _, _; split; [reflexivity|lia]|]).
  inversion H.
Qed.

Lemma get_rates_cents c rates :
  _get_rates_for_country c = Ok rates ->
  exists f p, rates = mkRates (cents f) (cents p) /\ 0 < f /\ 0 < p.
Proof. intros H. eapply configured_rates_cents, get_rates_configured, H. Qed.

(** ** Stepping through the dates *)

Lemma max_ordinal_is_last_day : MAXORDINAL = _ymd2ord 9999 12 31.
Proof. reflexivity. Qed.

Lemma days_loop_ok {S} (body : S -> date -> S) l s :
  Forall (fun d => d < MAXORDINAL) l ->
  for_each
    (fun s current => let s := body s current in check next_day current; Ok s)
    l s
  = Ok (fold_left body l s).
Proof.
  intros Hl. revert s. induction Hl as [|d l Hd _ IH]; intros s; [reflexivity|].
  cbn [for_each fold_left]. unfold next_day at 1.
  destruct (Z.ltb_spec d MAXORDINAL) as [_|Hge]; [|lia].
  cbn [bind]. apply IH.
Qed.

Lemma days_loop_overflow {S} (body : S -> date -> S) l s :
  Exists (fun d => MAXORDINAL <= d) l ->
  for_each
    (fun s current => let s := body s current in check next_day current; Ok s)
    l s
  = Raise OverflowError.
Proof.
  intros Hl. revert s. induction l as [|d l IH]; intros s.
  - inversion Hl.
  - cbn [for_each]. unfold next_day at 1.
    destruct (Z.ltb_spec d MAXORDINAL) as [Hlt|Hge]; cbn [bind].
    + apply IH. apply Exists_cons in Hl as [Hd|Hl]; [lia|exact Hl].
    + reflexivity.
Qed.

Lemma in_span_bounds first last d :
  d ∈ days_span first last <-> first <= d <= last.
Proof. unfold days_span. rewrite elem_of_seqZ. lia. Qed.

(** Before the last date of the calendar the loop runs through the span. *)
Lemma for_each_day_ok {S} (body : S -> date -> S) first last s :
  last < MAXORDINAL ->
  for_each_day body first last s
  = Ok (fold_left body (days_span first last) s).
Proof.
  intros Hlast. apply days_loop_ok. apply Forall_forall.
  intros d Hd%in_span_bounds. lia.
Qed.

(** A span that reaches the last date of the calendar makes it raise. *)
Lemma for_each_day_overflow {S} (body : S -> date -> S) first last s :
  first <= last -> MAXORDINAL <= last ->
  for_each_day body first last s = Raise OverflowError.
Proof.
  intros Hspan Hlast. apply days_loop_overflow. apply Exists_exists.
  exists last. split; [|exact Hlast]. apply in_span_bounds. lia.
Qed.

Lemma for_each_day_empty {S} (body : S -> date -> S) first last s :
  last < first -> for_each_day body first last s = Ok s.
Proof.
  intros Hlt. unfold for_each_day, days_span.
  rewrite seqZ_nil by lia. reflexivity.
Qed.

(** Those are the only outcomes. *)
Lemma for_each_day_cases {S} (body : S -> date -> S) first last s :
  for_each_day body first last s
  = Ok (fold_left body (days_span first last) s)
  \/ (for_each_day body first last s = Raise OverflowError
      /\ first <= last /\ MAXORDINAL <= last).
Proof.
  destruct (Z.lt_ge_cases last MAXORDINAL) as [Hlt|Hge].
  - left. now apply for_each_day_ok.
  - destruct (Z.lt_ge_cases last first) as [Hemp|Hspan].
    + left. rewrite for_each_day_empty by assumption.
      unfold days_span. rewrite seqZ_nil by lia. reflexivity.
    + right. split; [now apply for_each_day_overflow|]. now split.
Qed.

Lemma for_each_day_inv {S} (body : S -> date -> S) first last s s' :
  for_each_day body first last s = Ok s' ->
  s' = fold_left body (days_span first last) s
  /\ (last < first \/ last < MAXORDINAL).
Proof.
  intros H.
  destruct (for_each_day_cases body first last s) as [Hok|(Hr & Hspan & Hmax)].
  - rewrite Hok in H. injection H as <-. split; [reflexivity|].
    destruct (Z.lt_ge_cases last MAXORDINAL) as [Hlt|Hge]; [now right|].
    destruct (Z.lt_ge_cases last first) as [Hemp|Hspan]; [now left|].
    rewrite (for_each_day_overflow body first last s Hspan Hge) in Hok.
    discriminate.
  - rewrite Hr in H. discriminate.
Qed.

(** ** Day Allocator *)

Lemma eight_hour_gate (td : timedelta) :
  Qle_bool 8 (total_seconds td / 3600) = true <-> EIGHT_HOURS <= td.
Proof.
  unfold Qle_bool, total_seconds, Qdiv, Qmult, Qinv, EIGHT_HOURS; simpl.
  rewrite Z.leb_le. lia.
Qed.

Lemma domestic_rates c rates :
  _get_rates_for_country c = Ok rates -> upper c = "DE"%string ->
  rates = DOMESTIC_RATES.
Proof.
  unfold _get_rates_for_country. intros H E. rewrite E in H.
  simpl in H. injection H as <-. reflexivity.
Qed.

Lemma span_split (first last : date) :
  first < last ->
  days_span first last =
    first :: seqZ (first + 1) (last - first - 1) ++ [last].
Proof.
  intros Hlt. unfold days_span.
  replace (last - first + 1) with (1 + ((last - first - 1) + 1)) by lia.
  rewrite seqZ_app by lia. rewrite seqZ_app by lia.
  replace (first + 1 + (last - first - 1)) with last by lia.
  reflexivity.
Qed.

Lemma fold_left_step {A B} (f : A -> B -> A) x l a :
  fold_left f (x :: l) a = fold_left f l (f a x).
Proof. reflexivity. Qed.

Section MultiDay.
Variables (start_day end_day : date) (f p : Z).

Let body : Decimal * list trace_line -> date -> Decimal * list trace_line :=
  fun '(total, steps) current =>
    if (current =? start_day) || (current =? end_day) then
      (dec_add total (cents p),
       steps ++ [ArrivalDepartureLine current (cents p)])
    else
      (dec_add total (cents f), steps ++ [FullDayLine current (cents f)]).

Lemma inner_days_full l t steps :
  Forall (fun d => start_day < d < end_day) l ->
  exists steps',
    fold_left body l (cents t, steps)
    = (cents (t + Z.of_nat (length l) * f), steps').
Proof.
  revert t steps. induction l as [|d l IH]; intros t steps Hl.
  - exists steps. simpl. do 2 f_equal. lia.
  - inversion Hl as [|? ? Hd Hl']; subst. simpl fold_left.
    replace ((d =? start_day) || (d =? end_day)) with false
      by (symmetry; apply orb_false_iff; lia).
    rewrite add_cents.
    destruct (IH (t + f) (steps ++ [FullDayLine d (cents f)]) Hl')
      as [steps' ->].
    exists steps'. do 2 f_equal. rewrite length_cons. lia.
Qed.

Lemma outer_day_partial d t steps :
  d = start_day \/ d = end_day ->
  body (cents t, steps) d
  = (cents (t + p), steps ++ [ArrivalDepartureLine d (cents p)]).
Proof.
  intros Hd. unfold body.
  replace ((d =? start_day) || (d =? end_day)) with true.
  - now rewrite add_cents.
  - symmetry. apply orb_true_iff. lia.
Qed.

Lemma multi_day_total :
  start_day < end_day ->
  exists steps,
    fold_left body (days_span start_day end_day) (cents 0, [])
    = (cents (p + (end_day - start_day - 1) * f + p), steps).
Proof.
  intros Hlt. rewrite span_split by assumption.
  rewrite fold_left_step, fold_left_app.
  rewrite outer_day_partial by (left; reflexivity).
  edestruct (inner_days_full (seqZ (start_day + 1) (end_day - start_day - 1)))
    as [steps' ->].
  { apply List.Forall_forall. intros d Hd.
    apply list_elem_of_In, elem_of_seqZ in Hd. lia. }
  rewrite fold_left_step, outer_day_partial by (right; reflexivity).
  eexists. simpl fold_left. do 2 f_equal. rewrite length_seqZ, Z2Nat.id by lia. lia.
Qed.
End MultiDay.

Lemma date_of_mono (s e : datetime) : s <= e -> date_of s <= date_of e.
Proof. intros H. unfold date_of, US_PER_DAY. apply Z.div_le_mono; lia. Qed.

Lemma multi_day_allowance segment s e rates :
  start segment = Some s -> end_ segment = Some e ->
  date_of s < date_of e -> date_of e < MAXORDINAL ->
  _get_rates_for_country (country_code segment) = Ok rates ->
  exists steps,
    _calculate_day_allowance segment rates
    = Ok (dec_add
            (dec_add (partial_day rates)
               (dec_mul (dec_of_Z (date_of e - date_of s - 1))
                  (full_day rates)))
            (partial_day rates),
          steps).
Proof.
  intros Hs He Hdays Hmax Hrates.
  apply get_rates_cents in Hrates as (f & p & -> & _ & _).
  unfold _calculate_day_allowance. rewrite Hs, He.
  destruct (Z.eqb_spec (date_of s) (date_of e)) as [|_]; [lia|].
  cbn [full_day partial_day].
  rewrite for_each_day_ok by assumption. cbn [bind].
  destruct (multi_day_total (date_of s) (date_of e) f p Hdays)
    as [steps Hfold].
  cbv zeta in Hfold. rewrite Hfold.
  exists steps. rewrite money_cents, mul_Z_cents, !add_cents.
  reflexivity.
Qed.

Lemma single_day_allowance segment s e rates :
  start segment = Some s -> end_ segment = Some e ->
  date_of s = date_of e ->
  _get_rates_for_country (country_code segment) = Ok rates ->
  exists steps,
    _calculate_day_allowance segment rates
    = Ok (if EIGHT_HOURS <=? dt_sub e s then partial_day rates else cents 0,
          steps).
Proof.
  intros Hs He Hday Hrates.
  apply get_rates_cents in Hrates as (f & p & -> & _ & _).
  unfold _calculate_day_allowance. rewrite Hs, He, Hday, Z.eqb_refl.
  cbn [partial_day].
  destruct (Qle_bool 8 (total_seconds (dt_sub e s) / 3600)) eqn:Hgate.
  - apply eight_hour_gate in Hgate. apply Z.leb_le in Hgate.
    rewrite Hgate, money_cents. eexists; reflexivity.
  - assert (Hlt : (EIGHT_HOURS <=? dt_sub e s) = false).
    { apply Z.leb_gt. apply Z.nle_gt. intros Hle.
      apply eight_hour_gate in Hle. congruence. }
    rewrite Hlt, money_cents. eexists; reflexivity.
Qed.

(** ** Meal Deduction Calculator *)

Lemma money_as_cents d : _money d = cents (coef (_money d)).
Proof. apply cents_eta, money_expo. Qed.

Lemma money_is_cents d : exists x, _money d = cents x.
Proof. eexists. apply money_as_cents. Qed.

Lemma find_snoc {A} (P : A -> bool) l x :
  List.find P (l ++ [x])
  = match List.find P l with
    | Some y => Some y
    | None => if P x then Some x else None
    end.
Proof.
  induction l as [|y l IH]; simpl.
  - reflexivity.
  - destruct (P y); [reflexivity|exact IH].
Qed.

Lemma provided_by_day_fold meals (m0 : gmap Z DayMealProvision) d :
  fold_left (fun m entry => <[day entry := entry]> m) meals m0 !! d
  = match record_for meals d with
    | Some entry => Some entry
    | None => m0 !! d
    end.
Proof.
  unfold record_for. revert m0.
  induction meals as [|a meals IH]; intros m0; simpl.
  - reflexivity.
  - rewrite IH, find_snoc.
    destruct (List.find _ (rev meals)); [reflexivity|].
    destruct (Z.eqb_spec (day a) d) as [->|Hne].
    + apply lookup_insert_eq.
    + now apply lookup_insert_ne.
Qed.

Lemma provided_by_day_lookup meals d :
  provided_by_day_of meals !! d = record_for meals d.
Proof.
  unfold provided_by_day_of. rewrite provided_by_day_fold.
  destruct (record_for meals d); [reflexivity|apply lookup_empty].
Qed.

Lemma three_meals_cents full_day_rate (b l d : bool) :
  exists x,
    dec_sum
      [if b then _money (dec_mul full_day_rate (cents 20)) else cents 0;
       if l then _money (dec_mul full_day_rate (cents 40)) else cents 0;
       if d then _money (dec_mul full_day_rate (cents 40)) else cents 0]
    = cents x.
Proof.
  unfold dec_sum.
  destruct (money_is_cents (dec_mul full_day_rate (cents 20))) as [x20 ->].
  destruct (money_is_cents (dec_mul full_day_rate (cents 40))) as [x40 ->].
  destruct b, l, d; cbn [fold_left]; rewrite ?add_cents;
    eexists; reflexivity.
Qed.

Section MealLoop.
Variables (full_day_rate : Decimal) (meals : list DayMealProvision).

Let meal_body (current_day : date) (m : DayMealProvision)
  : Decimal * list trace_line -> meal * Decimal -> Decimal * list trace_line :=
  fun '(day_total, steps) '(meal_key, ratio) =>
    if getattr m meal_key then
      let deduction := _money (dec_mul full_day_rate ratio) in
      (dec_add day_total deduction,
       steps ++ [MealProvidedLine current_day meal_key ratio deduction])
    else (day_total, steps).

Let day_body
  : Decimal * list trace_line -> date -> Decimal * list trace_line :=
  fun '(total, steps) current_day =>
    match provided_by_day_of meals !! current_day with
    | None => (total, steps)
    | Some m =>
        let '(day_total, steps) :=
          fold_left (meal_body current_day m) MEAL_DEDUCTION_RATES
            (cents 0, steps) in
        if dec_truthy day_total then
          (dec_add total day_total,
           steps ++ [MealSubtotalLine current_day day_total])
        else (total, steps)
    end.

Lemma day_deduction_cents d :
  day_deduction full_day_rate meals d
  = cents (coef (day_deduction full_day_rate meals d)).
Proof.
  apply cents_eta. unfold day_deduction.
  destruct (record_for meals d) as [m|]; [|reflexivity].
  destruct (three_meals_cents full_day_rate
              (breakfast m) (lunch m) (dinner m)) as [x ->].
  reflexivity.
Qed.

Lemma meals_of_day d m steps :
  exists steps',
    fold_left (meal_body d m) MEAL_DEDUCTION_RATES (cents 0, steps)
    = (dec_sum
         [if breakfast m then _money (dec_mul full_day_rate (cents 20))
          else cents 0;
          if lunch m then _money (dec_mul full_day_rate (cents 40))
          else cents 0;
          if dinner m then _money (dec_mul full_day_rate (cents 40))
          else cents 0],
       steps').
Proof.
  destruct m as [dy b l dn].
  unfold dec_sum, MEAL_DEDUCTION_RATES, meal_body.
  destruct (money_is_cents (dec_mul full_day_rate (cents 20))) as [x20 H20].
  destruct (money_is_cents (dec_mul full_day_rate (cents 40))) as [x40 H40].
  destruct b, l, dn; cbn [fold_left getattr breakfast lunch dinner];
    rewrite ?H20, ?H40, ?add_cents; eexists;
    (apply pair_equal_spec; split; [f_equal; lia|reflexivity]).
Qed.

Lemma day_body_adds t steps d :
  exists steps',
    day_body (cents t, steps) d
    = (cents (t + coef (day_deduction full_day_rate meals d)), steps').
Proof.
  unfold day_body, day_deduction. rewrite provided_by_day_lookup.
  destruct (record_for meals d) as [m|].
  - destruct (meals_of_day d m steps) as [steps' ->].
    destruct (three_meals_cents full_day_rate
                (breakfast m) (lunch m) (dinner m)) as [y ->].
    unfold dec_truthy. change (coef (cents y)) with y.
    destruct (Z.eqb_spec y 0) as [->|_]; cbn [negb].
    + rewrite Z.add_0_r. eexists; reflexivity.
    + rewrite add_cents. eexists; reflexivity.
  - simpl. rewrite Z.add_0_r. eexists; reflexivity.
Qed.

Lemma day_loop_sums days t steps :
  exists steps',
    fold_left day_body days (cents t, steps)
    = (fold_left dec_add (map (day_deduction full_day_rate meals) days)
         (cents t),
       steps').
Proof.
  revert t steps. induction days as [|d days IH]; intros t steps.
  - exists steps. reflexivity.
  - rewrite fold_left_step.
    destruct (day_body_adds t steps d) as [steps1 ->].
    destruct (IH (t + coef (day_deduction full_day_rate meals d)) steps1)
      as [steps' ->].
    exists steps'. simpl map. rewrite fold_left_step.
    rewrite (day_deduction_cents d) at 2. rewrite add_cents. reflexivity.
Qed.

Lemma sum_of_deductions_cents days t :
  expo (fold_left dec_add (map (day_deduction full_day_rate meals) days)
          (cents t)) = -2.
Proof.
  revert t. induction days as [|d days IH]; intros t; [reflexivity|].
  simpl map. rewrite fold_left_step, day_deduction_cents, add_cents.
  apply IH.
Qed.
End MealLoop.

Lemma meal_deductions_cases segment s e full_day_rate :
  start segment = Some s -> end_ segment = Some e ->
  (exists steps,
     _calculate_meal_deductions segment full_day_rate
     = Ok (dec_sum
             (map (day_deduction full_day_rate (provided_meals segment))
                (days_span (date_of s) (date_of e))),
           steps))
  \/ (_calculate_meal_deductions segment full_day_rate = Raise OverflowError
      /\ date_of s <= date_of e /\ MAXORDINAL <= date_of e).
Proof.
  intros Hs He. unfold _calculate_meal_deductions. rewrite Hs, He.
  match goal with
  | |- context [for_each_day ?body ?first ?last ?init] =>
      destruct (for_each_day_cases body first last init)
        as [->|(-> & Hspan & Hmax)]
  end; [left|right; now repeat split].
  cbn [bind].
  destruct (day_loop_sums full_day_rate (provided_meals segment)
              (days_span (date_of s) (date_of e)) 0 []) as [steps Hfold].
  cbv zeta in Hfold. cbv zeta. rewrite Hfold.
  unfold dec_sum.
  rewrite (cents_eta _ (sum_of_deductions_cents full_day_rate
                          (provided_meals segment) _ 0)).
  rewrite money_cents. eexists; reflexivity.
Qed.

Lemma meal_deductions_total segment s e full_day_rate :
  start segment = Some s -> end_ segment = Some e ->
  date_of e < MAXORDINAL ->
  exists steps,
    _calculate_meal_deductions segment full_day_rate
    = Ok (dec_sum
            (map (day_deduction full_day_rate (provided_meals segment))
               (days_span (date_of s) (date_of e))),
          steps).
Proof.
  intros Hs He Hmax.
  destruct (meal_deductions_cases segment s e full_day_rate Hs He)
    as [H|(_ & _ & Hge)]; [exact H|lia].
Qed.

Lemma meal_deductions_value segment s e full_day_rate a steps :
  start segment = Some s -> end_ segment = Some e ->
  _calculate_meal_deductions segment full_day_rate = Ok (a, steps) ->
  a = dec_sum
        (map (day_deduction full_day_rate (provided_meals segment))
           (days_span (date_of s) (date_of e))).
Proof.
  intros Hs He Hok.
  destruct (meal_deductions_cases segment s e full_day_rate Hs He)
    as [[steps' H]|(H & _)]; rewrite H in Hok; [|discriminate].
  now injection Hok as <- _.
Qed.

Lemma meal_deductions_overflow segment s e full_day_rate :
  start segment = Some s -> end_ segment = Some e ->
  date_of s <= date_of e -> MAXORDINAL <= date_of e ->
  _calculate_meal_deductions segment full_day_rate = Raise OverflowError.
Proof.
  intros Hs He Hspan Hmax. unfold _calculate_meal_deductions.
  rewrite Hs, He, for_each_day_overflow by assumption. reflexivity.
Qed.

(** ** Loops that can raise *)

Lemma for_each_app {A S} (body : S -> A -> result S) l1 l2 s :
  for_each body (l1 ++ l2) s
  = (call s' <- for_each body l1 s; for_each body l2 s').
Proof.
  revert s. induction l1 as [|x l1 IH]; intros s; simpl; [reflexivity|].
  destruct (body s x); simpl; [apply IH|reflexivity].
Qed.

(** A loop of checks passes when every check passes, and otherwise raises
    what the first failing check raises. *)
Lemma checks_spec {A} (f : unit -> A -> result unit) (l : list A) :
  (for_each f l tt = Ok tt /\ Forall (fun x => f tt x = Ok tt) l)
  \/ (exists e x, for_each f l tt = Raise e /\ x ∈ l /\ f tt x = Raise e).
Proof.
  induction l as [|x l IH]; simpl.
  - left. split; [reflexivity|constructor].
  - destruct (f tt x) as [[]|e] eqn:Hx; simpl.
    + destruct IH as [[Hok Hall]|(e & y & Hr & Hy & Hfy)].
      * left. split; [exact Hok|]. constructor; assumption.
      * right. exists e, y. split; [exact Hr|]. split; [now right|exact Hfy].
    + right. exists e, x. split; [reflexivity|]. split; [left|exact Hx].
Qed.

(** ** Sorting by start *)

Lemma insert_by_start_perm x l : insert_by_start x l ≡ₚ x :: l.
Proof.
  induction l as [|y l IH]; simpl; [reflexivity|].
  destruct (key_ltb _ _); [|reflexivity].
  rewrite IH. apply perm_swap.
Qed.

Lemma sorted_by_start_perm l : sorted_by_start l ≡ₚ l.
Proof.
  induction l as [|x l IH]; simpl; [reflexivity|].
  rewrite insert_by_start_perm. now rewrite IH.
Qed.

Lemma key_ltb_asym a b : key_ltb a b = true -> key_ltb b a = false.
Proof.
  destruct a, b; simpl; try reflexivity. intros H%Z.ltb_lt. apply Z.ltb_ge. lia.
Qed.

Lemma insert_by_start_sorted x l :
  Sorted not_after l -> Sorted not_after (insert_by_start x l).
Proof.
  induction 1 as [|y l Hl IH Hy]; simpl.
  - repeat constructor.
  - destruct (key_ltb (start y) (start x)) eqn:E.
    + constructor; [exact IH|].
      destruct Hy as [|z l' Hz]; simpl.
      * constructor. now apply key_ltb_asym.
      * destruct (key_ltb (start z) (start x)); constructor;
          [exact Hz|now apply key_ltb_asym].
    + constructor; [now constructor|]. constructor. exact E.
Qed.

Lemma sorted_by_start_sorted l : Sorted not_after (sorted_by_start l).
Proof.
  induction l as [|x l IH]; simpl; [constructor|].
  now apply insert_by_start_sorted.
Qed.

(** ** Pairs of a batch *)

Lemma some_pair_perm {A} (R : A -> A -> Prop) l l' :
  l ≡ₚ l' -> some_pair R l -> some_pair R l'.
Proof.
  intros [_ (f & Hinj & Hf)]%Permutation_inj (i & j & a & b & Hij & Hi & Hj & HR).
  exists (f i), (f j), a, b. repeat split.
  - intros Heq. apply Hij, Hinj, Heq.
  - now rewrite <- Hf.
  - now rewrite <- Hf.
  - exact HR.
Qed.

Lemma strongly_sorted_lookup {A} (R : A -> A -> Prop) l i j a b :
  StronglySorted R l -> (i < j)%nat ->
  l !! i = Some a -> l !! j = Some b -> R a b.
Proof.
  intros Hl. revert i j. induction Hl as [|x l Hl IH Hx]; intros i j Hij Hi Hj.
  - discriminate.
  - destruct j as [|j]; [lia|]. destruct i as [|i]; simpl in *.
    + injection Hi as ->. rewrite List.Forall_forall in Hx. apply Hx.
      apply list_elem_of_In, list_elem_of_lookup. eauto.
    + apply (IH i j); [lia|assumption..].
Qed.

(** ** Overlap validation *)

Lemma overlaps_sym a b : overlaps a b -> overlaps b a.
Proof.
  intros (sa & ea & sb & eb & Ha1 & Ha2 & Hb1 & Hb2 & H1 & H2).
  exists sb, eb, sa, ea. repeat split; assumption.
Qed.

Lemma precedes_not_overlaps a b : precedes a b -> ~ overlaps a b.
Proof.
  intros (_ & _ & ea & sb & Hea & Hsb & Hle)
         (sa' & ea' & sb' & eb' & _ & Hea' & Hsb' & _ & _ & Hlt).
  rewrite Hea in Hea'. rewrite Hsb in Hsb'. simplify_eq. lia.
Qed.

Lemma precedes_trans a b c : precedes a b -> precedes b c -> precedes a c.
Proof.
  intros (Ha & Hb & ea & sb & Hea & Hsb & Hab)
         (_ & Hc & eb & sc & Heb & Hsc & Hbc).
  split; [exact Ha|]. split; [exact Hc|].
  destruct Hb as (sb' & eb' & Hsb' & Heb' & Hlt).
  exists ea, sc. split; [exact Hea|]. split; [exact Hsc|].
  rewrite Hsb in Hsb'. rewrite Heb in Heb'. simplify_eq. lia.
Qed.

Lemma precedes_starts_earlier a b :
  precedes a b ->
  exists sa sb, start a = Some sa /\ start b = Some sb /\ sa < sb.
Proof.
  intros ((sa & ea & Hsa & Hea & Hlt) & _ & ea' & sb & Hea' & Hsb & Hle).
  exists sa, sb. rewrite Hea in Hea'. simplify_eq.
  split; [exact Hsa|]. split; [exact Hsb|lia].
Qed.

Lemma adjacent_pairs_spec l :
  Sorted not_after l -> Forall valid_timing l ->
  (for_each adjacent_check (zip l (tail l)) tt = Ok tt /\ Sorted precedes l)
  \/ (exists prev cur i,
        for_each adjacent_check (zip l (tail l)) tt
        = Raise (TravelRuleValidationError (overlap_message prev cur))
        /\ l !! i = Some prev /\ l !! S i = Some cur /\ overlaps prev cur).
Proof.
  induction l as [|a l IH]; intros Hs Hv.
  - left. split; [reflexivity|constructor].
  - destruct l as [|b l].
    + left. split; [reflexivity|repeat constructor].
    + apply Sorted_inv in Hs as [Hs Hhd]. apply HdRel_inv in Hhd.
      inversion Hv as [|? ? (sa & ea & Hsa & Hea & Ha) Hv']; subst.
      inversion Hv' as [|? ? (sb & eb & Hsb & Heb & Hb) _]; subst.
      unfold not_after in Hhd. rewrite Hsa, Hsb in Hhd. simpl in Hhd.
      apply Z.ltb_ge in Hhd.
      change (zip (a :: b :: l) (tail (a :: b :: l)))
        with ((a, b) :: zip (b :: l) (tail (b :: l))).
      assert (Hab : adjacent_check tt (a, b)
                    = if sb <? ea then
                        Raise (TravelRuleValidationError (overlap_message a b))
                      else Ok tt).
      { unfold adjacent_check. rewrite Hsb, Hea. reflexivity. }
      cbn [for_each]. rewrite Hab.
      destruct (Z.ltb_spec sb ea) as [Hlt|Hge]; cbn [bind].
      * right. exists a, b, 0%nat. do 3 (split; [reflexivity|]).
        exists sa, ea, sb, eb. repeat split; try assumption; lia.
      * destruct (IH Hs Hv') as [[Hok Hsorted]|(prev & cur & i & Hr & Hi & Hj & Ho)].
        -- left. split; [exact Hok|]. constructor; [exact Hsorted|].
           constructor. split; [now exists sa, ea|]. split; [now exists sb, eb|].
           exists ea, sb. repeat split; assumption.
        -- right. exists prev, cur, (S i).
           split; [exact Hr|]. split; [exact Hi|]. split; [exact Hj|exact Ho].
Qed.

Lemma validate_overlaps_spec segments :
  Forall valid_timing segments ->
  (_validate_overlaps segments = Ok tt
   /\ StronglySorted precedes (sorted_by_start segments)
   /\ ~ some_pair overlaps segments)
  \/ (exists prev cur,
        _validate_overlaps segments
        = Raise (TravelRuleValidationError (overlap_message prev cur))
        /\ some_pair overlaps segments).
Proof.
  intros Hv.
  assert (Hv' : Forall valid_timing (sorted_by_start segments)).
  { now rewrite sorted_by_start_perm. }
  destruct (adjacent_pairs_spec _ (sorted_by_start_sorted segments) Hv')
    as [[Hok Hsorted]|(prev & cur & i & Hr & Hi & Hj & Ho)].
  - left. split; [exact Hok|].
    assert (Hss : StronglySorted precedes (sorted_by_start segments)).
    { apply Sorted.Sorted_StronglySorted; [|exact Hsorted].
      intros a b c. apply precedes_trans. }
    split; [exact Hss|].
    intros Hpair.
    apply (some_pair_perm _ _ (sorted_by_start segments)) in Hpair;
      [|symmetry; apply sorted_by_start_perm].
    destruct Hpair as (i & j & a & b & Hij & Hi & Hj & Ho).
    destruct (Nat.lt_total i j) as [Hlt|[Heq|Hgt]]; [|lia|].
    + apply (precedes_not_overlaps a b); [|exact Ho].
      eapply strongly_sorted_lookup; eassumption.
    + apply (precedes_not_overlaps b a); [|now apply overlaps_sym].
      eapply strongly_sorted_lookup; eassumption.
  - right. exists prev, cur. split; [exact Hr|].
    apply (some_pair_perm _ (sorted_by_start segments));
      [apply sorted_by_start_perm|].
    exists i, (S i), prev, cur.
    split; [lia|]. split; [exact Hi|]. split; [exact Hj|exact Ho].
Qed.

(** ** Duplicate receipts *)

Lemma receipts_as_entries trip rs seen :
  for_each (receipt_check trip) rs seen
  = for_each entry_check (map (fun r => (receipt_id r, trip)) rs) seen.
Proof.
  revert seen. induction rs as [|r rs IH]; intros seen; [reflexivity|].
  cbn [for_each map].
  change (receipt_check trip seen r) with (entry_check seen (receipt_id r, trip)).
  destruct (entry_check seen (receipt_id r, trip)); cbn [bind];
    [apply IH|reflexivity].
Qed.

Lemma segments_as_entries segments seen :
  for_each
    (fun seen seg => for_each (receipt_check (trip_id seg)) (receipts seg) seen)
    segments seen
  = for_each entry_check (batch_entries segments) seen.
Proof.
  revert seen. induction segments as [|seg segments IH]; intros seen;
    [reflexivity|].
  cbn [for_each batch_entries flat_map].
  rewrite for_each_app, receipts_as_entries.
  destruct (for_each entry_check _ seen); simpl; [apply IH|reflexivity].
Qed.

Lemma validate_duplicates_unfold segments :
  _validate_duplicate_receipts segments
  = (call _ <- for_each entry_check (batch_entries segments) ∅; Ok tt).
Proof.
  rewrite <- segments_as_entries. reflexivity.
Qed.

Lemma batch_entries_ids segments :
  (batch_entries segments).*1 = map receipt_id (all_receipts segments).
Proof.
  induction segments as [|seg segments IH]; [reflexivity|].
  cbn [batch_entries all_receipts flat_map].
  rewrite fmap_app, map_app. f_equal; [|exact IH].
  induction (receipts seg) as [|r rs IHr]; [reflexivity|].
  simpl. f_equal. exact IHr.
Qed.

Lemma entry_check_seen seen k v owner :
  seen !! k = Some owner ->
  entry_check seen (k, v)
  = Raise (TravelRuleValidationError (duplicate_message k owner v)).
Proof. unfold entry_check. now intros ->. Qed.

Lemma entry_check_fresh seen k v :
  seen !! k = None -> entry_check seen (k, v) = Ok (<[k := v]> seen).
Proof. unfold entry_check. now intros ->. Qed.

Lemma scan_spec es seen :
  (exists seen', for_each entry_check es seen = Ok seen' /\ fresh_ids seen es)
  \/ (exists msg,
        for_each entry_check es seen = Raise (TravelRuleValidationError msg)
        /\ ~ fresh_ids seen es).
Proof.
  revert seen. induction es as [|[k v] es IH]; intros seen.
  - left. exists seen. split; [reflexivity|]. split; [constructor|].
    intros k Hk. inversion Hk.
  - cbn [for_each].
    destruct (seen !! k) as [owner|] eqn:Hk;
      [rewrite (entry_check_seen _ _ _ _ Hk)
      |rewrite (entry_check_fresh _ _ _ Hk)]; cbn [bind].
    + right. eexists. split; [reflexivity|].
      intros [_ Hfresh]. specialize (Hfresh k). rewrite Hk in Hfresh.
      discriminate Hfresh. left.
    + destruct (IH (<[k := v]> seen))
        as [(seen' & Hok & Hnd & Hfresh)|(msg & Hr & Hbad)].
      * left. exists seen'. split; [exact Hok|]. split.
        -- cbn. apply NoDup_cons. split; [|exact Hnd].
           intros Hin. specialize (Hfresh k Hin).
           rewrite lookup_insert_eq in Hfresh. discriminate.
        -- intros k' Hk'. cbn in Hk'. apply elem_of_cons in Hk' as [->|Hk'].
           ++ exact Hk.
           ++ specialize (Hfresh k' Hk').
              destruct (decide (k = k')) as [->|Hne].
              ** rewrite lookup_insert_eq in Hfresh. discriminate.
              ** now rewrite lookup_insert_ne in Hfresh.
      * right. exists msg. split; [exact Hr|].
        intros [Hnd Hfresh]. apply Hbad. cbn in Hnd.
        apply NoDup_cons in Hnd as [Hnotin Hnd]. split; [exact Hnd|].
        intros k' Hk'. rewrite lookup_insert_ne.
        -- apply Hfresh. cbn. now right.
        -- intros ->. contradiction.
Qed.

(** Scanning a duplicate-free prefix records every owner. *)
Lemma scan_prefix es seen :
  fresh_ids seen es ->
  exists seen',
    for_each entry_check es seen = Ok seen'
    /\ (forall k v, (k, v) ∈ es -> seen' !! k = Some v)
    /\ (forall k, k ∉ es.*1 -> seen' !! k = seen !! k).
Proof.
  revert seen. induction es as [|[k v] es IH]; intros seen [Hnd Hfresh].
  - exists seen. split; [reflexivity|]. split; [|reflexivity].
    intros k v Hin. inversion Hin.
  - cbn in Hnd. apply NoDup_cons in Hnd as [Hnotin Hnd].
    cbn [for_each].
    rewrite entry_check_fresh by (apply Hfresh; cbn; left). cbn [bind].
    destruct (IH (<[k := v]> seen)) as (seen' & Hok & Hin & Hout).
    { split; [exact Hnd|]. intros k' Hk'. rewrite lookup_insert_ne.
      - apply Hfresh. cbn. now right.
      - intros ->. contradiction. }
    exists seen'. split; [exact Hok|]. split.
    + intros k' v' [[= -> ->]|Hin']%elem_of_cons.
      * rewrite (Hout k Hnotin). apply lookup_insert_eq.
      * now apply Hin.
    + intros k' Hk'. cbn in Hk'. apply not_elem_of_cons in Hk' as [Hne Hk'].
      rewrite (Hout k' Hk'). now apply lookup_insert_ne.
Qed.

Lemma some_pair_not_NoDup (l : list Receipt) :
  some_pair same_receipt_id l -> ~ NoDup (map receipt_id l).
Proof.
  intros (i & j & a & b & Hij & Hi & Hj & Hab) Hnd. apply Hij.
  apply (NoDup_lookup _ i j (receipt_id a) Hnd).
  - change (map receipt_id l) with (receipt_id <$> l).
    now rewrite list_lookup_fmap, Hi.
  - change (map receipt_id l) with (receipt_id <$> l).
    rewrite list_lookup_fmap, Hj. simpl. now rewrite Hab.
Qed.

Lemma not_NoDup_some_pair (l : list Receipt) :
  ~ NoDup (map receipt_id l) -> some_pair same_receipt_id l.
Proof.
  induction l as [|r l IH]; intros Hnd.
  - exfalso. apply Hnd. constructor.
  - destruct (decide (receipt_id r ∈ map receipt_id l)) as [Hin|Hnotin].
    + change (map receipt_id l) with (receipt_id <$> l) in Hin.
      apply list_elem_of_fmap in Hin as (r' & Heq & Hin).
      apply list_elem_of_lookup in Hin as [j Hj].
      exists 0%nat, (S j), r, r'.
      split; [lia|]. split; [reflexivity|]. split; [exact Hj|exact Heq].
    + destruct IH as (i & j & a & b & Hij & Hi & Hj & Hab).
      { intros Hnd'. apply Hnd. cbn. apply NoDup_cons. now split. }
      exists (S i), (S j), a, b.
      split; [lia|]. split; [exact Hi|]. split; [exact Hj|exact Hab].
Qed.

Lemma fresh_ids_empty segments :
  fresh_ids ∅ (batch_entries segments)
  <-> NoDup (map receipt_id (all_receipts segments)).
Proof.
  unfold fresh_ids. rewrite batch_entries_ids. split.
  - now intros [H _].
  - intros H. split; [exact H|]. intros k _. apply lookup_empty.
Qed.

Lemma validate_duplicates_spec segments :
  (_validate_duplicate_receipts segments = Ok tt
   /\ NoDup (map receipt_id (all_receipts segments)))
  \/ (exists msg,
        _validate_duplicate_receipts segments
        = Raise (TravelRuleValidationError msg)
        /\ some_pair same_receipt_id (all_receipts segments)).
Proof.
  rewrite validate_duplicates_unfold.
  destruct (scan_spec (batch_entries segments) ∅)
    as [(seen' & -> & Hfresh)|(msg & -> & Hbad)].
  - left. split; [reflexivity|]. now apply fresh_ids_empty.
  - right. exists msg. split; [reflexivity|].
    apply not_NoDup_some_pair. intros Hnd. apply Hbad.
    now apply fresh_ids_empty.
Qed.

(** ** The validator as a whole *)

Lemma timing_check_ok seg : timing_check tt seg = Ok tt -> valid_timing seg.
Proof.
  unfold timing_check, valid_timing.
  destruct (start seg) as [s|], (end_ seg) as [e|]; try discriminate.
  destruct (Z.leb_spec e s); [discriminate|]. intros _. now exists s, e.
Qed.

Lemma timing_check_raise seg e :
  timing_check tt seg = Raise e ->
  bad_timing seg /\ exists msg, e = TravelRuleValidationError msg.
Proof.
  unfold timing_check, bad_timing.
  destruct (start seg) as [s|], (end_ seg) as [e'|].
  - destruct (Z.leb_spec e' s); [|discriminate]. intros [= <-].
    split; [|eexists; reflexivity]. right. right. now exists s, e'.
  - intros [= <-]. split; [|eexists; reflexivity]. right. now left.
  - intros [= <-]. split; [|eexists; reflexivity]. now left.
  - intros [= <-]. split; [|eexists; reflexivity]. now left.
Qed.

Lemma timing_check_valid seg : valid_timing seg -> timing_check tt seg = Ok tt.
Proof.
  intros (s & e & Hs & He & Hlt). unfold timing_check. rewrite Hs, He.
  destruct (Z.leb_spec e s); [lia|reflexivity].
Qed.

Lemma valid_not_bad seg : valid_timing seg -> ~ bad_timing seg.
Proof.
  intros (s & e & Hs & He & Hlt) [H|[H|(s' & e' & Hs' & He' & Hle)]];
    try congruence.
  rewrite Hs in Hs'. rewrite He in He'. simplify_eq. lia.
Qed.

Lemma accepted_not_rejected segments :
  batch_accepted segments -> ~ batch_rejected segments.
Proof.
  intros (Hne & Hv & Hno & Hnd) [H|[H|[H|H]]].
  - contradiction.
  - apply Exists_exists in H as (x & Hx & Hbad).
    rewrite Forall_forall in Hv. now apply (valid_not_bad x (Hv x Hx)).
  - contradiction.
  - now apply some_pair_not_NoDup in H.
Qed.

Lemma validate_segments_spec segments :
  (_validate_segments segments = Ok tt
   /\ batch_accepted segments
   /\ StronglySorted precedes (sorted_by_start segments))
  \/ (exists msg,
        _validate_segments segments = Raise (TravelRuleValidationError msg)
        /\ batch_rejected segments).
Proof.
  destruct segments as [|seg0 rest] eqn:Hsegs.
  { right. eexists. split; [reflexivity|]. now left. }
  rewrite <- Hsegs.
  assert (Hunfold : _validate_segments segments
    = (check for_each timing_check segments tt;
       check _validate_overlaps segments;
       _validate_duplicate_receipts segments)).
  { rewrite Hsegs. reflexivity. }
  rewrite Hunfold.
  destruct (checks_spec timing_check segments)
    as [[-> Hall]|(e & x & -> & Hx & Hfx)]; cbn [bind].
  - assert (Hv : Forall valid_timing segments).
    { eapply Forall_impl; [exact Hall|]. intros y. apply timing_check_ok. }
    destruct (validate_overlaps_spec segments Hv)
      as [(-> & Hss & Hno)|(prev & cur & -> & Hpair)]; cbn [bind].
    + destruct (validate_duplicates_spec segments)
        as [[-> Hnd]|(msg & -> & Hdup)].
      * left. split; [reflexivity|]. split; [|exact Hss].
        split; [rewrite Hsegs; discriminate|]. now repeat split.
      * right. exists msg. split; [reflexivity|]. now do 3 right.
    + right. eexists. split; [reflexivity|]. right. right. now left.
  - apply timing_check_raise in Hfx as [Hbad [msg ->]].
    right. exists msg. split; [reflexivity|]. right. left.
    apply Exists_exists. now exists x.
Qed.

(** ** Rates, again *)

Lemma get_rates_spec c :
  (exists rates, _get_rates_for_country c = Ok rates)
  \/ (exists msg,
        _get_rates_for_country c = Raise (TravelRuleValidationError msg)
        /\ upper c <> "DE"%string
        /\ INTERNATIONAL_RATE_TABLE !! upper c = None).
Proof.
  unfold _get_rates_for_country.
  destruct (String.eqb_spec (upper c) "DE") as [|Hne].
  - left. eexists; reflexivity.
  - destruct (INTERNATIONAL_RATE_TABLE !! upper c) as [r|] eqn:E.
    + left. eexists; reflexivity.
    + right. eexists. split; [reflexivity|]. now split.
Qed.

Lemma supported_not_unsupported seg rates :
  _get_rates_for_country (country_code seg) = Ok rates ->
  ~ unsupported_country seg.
Proof.
  unfold _get_rates_for_country, unsupported_country.
  destruct (String.eqb_spec (upper (country_code seg)) "DE") as [|Hne].
  - intros _ [H _]. contradiction.
  - intros H [_ E]. rewrite E in H. discriminate.
Qed.

(** ** Aggregator *)

Lemma day_allowance_cents seg rates a steps :
  _calculate_day_allowance seg rates = Ok (a, steps) -> exists g, a = cents g.
Proof.
  unfold _calculate_day_allowance.
  destruct (start seg) as [s|], (end_ seg) as [e|]; try discriminate.
  destruct (date_of s =? date_of e).
  - destruct (Qle_bool _ _); intros [= <- _]; apply money_is_cents.
  - destruct (for_each_day _ _ _ _) as [[total steps']|]; cbn [bind];
      [|discriminate].
    intros [= <- _]. apply money_is_cents.
Qed.

(** The day allocator returns, or the span reaches the last date. *)
Lemma day_allowance_cases seg rates s e :
  start seg = Some s -> end_ seg = Some e ->
  (exists a steps, _calculate_day_allowance seg rates = Ok (a, steps))
  \/ (_calculate_day_allowance seg rates = Raise OverflowError
      /\ date_of s < date_of e /\ MAXORDINAL <= date_of e).
Proof.
  intros Hs He. unfold _calculate_day_allowance. rewrite Hs, He.
  destruct (Z.eqb_spec (date_of s) (date_of e)) as [Heq|Hne].
  - left. destruct (Qle_bool _ _); eexists _, _; reflexivity.
  - match goal with
    | |- context [for_each_day ?body ?first ?last ?init] =>
        destruct (for_each_day_cases body first last init)
          as [->|(-> & Hspan & Hmax)]
    end; cbn [bind].
    + left. destruct (fold_left _ _ _) as [total steps'].
      eexists _, _; reflexivity.
    + right. split; [reflexivity|]. split; [lia|exact Hmax].
Qed.

Lemma meal_deductions_shape seg full_day_rate a steps :
  _calculate_meal_deductions seg full_day_rate = Ok (a, steps) ->
  exists d, a = cents d.
Proof.
  unfold _calculate_meal_deductions.
  destruct (start seg) as [s|], (end_ seg) as [e|]; try discriminate.
  destruct (for_each_day _ _ _ _) as [[total steps']|]; cbn [bind];
    [|discriminate].
  intros [= <- _]. apply money_is_cents.
Qed.

Lemma body_ok_inv st seg st' :
  calculate_body st seg = Ok st' ->
  exists rates g d day_steps meal_steps steps,
    _get_rates_for_country (country_code seg) = Ok rates
    /\ _calculate_day_allowance seg rates = Ok (cents g, day_steps)
    /\ _calculate_meal_deductions seg (full_day rates) = Ok (cents d, meal_steps)
    /\ st' = mkState (st_steps st ++ steps)
               (st_by_trip st ++ [trip_entry seg g d steps])
               (dec_add (st_gross_total st) (cents g))
               (dec_add (st_meal_deduction_total st) (cents d)).
Proof.
  unfold calculate_body.
  destruct (_get_rates_for_country (country_code seg)) as [rates|] eqn:Hr;
    [|discriminate].
  cbn [bind].
  destruct (_calculate_day_allowance seg rates) as [[a day_steps]|] eqn:Hd;
    [|discriminate].
  cbn [bind].
  destruct (_calculate_meal_deductions seg (full_day rates))
    as [[m meal_steps]|] eqn:Hm; [|discriminate].
  cbn [bind].
  destruct (day_allowance_cents _ _ _ _ Hd) as [g ->].
  destruct (meal_deductions_shape _ _ _ _ Hm) as [d ->].
  rewrite sub_cents, !money_cents. intros [= <-].
  exists rates, g, d, day_steps, meal_steps. eexists.
  split; [reflexivity|]. split; [exact Hd|]. split; [exact Hm|]. reflexivity.
Qed.

(** What one turn of the loop of [calculate] does with a segment that has
    passed the timing check. *)
Lemma body_cases st seg :
  valid_timing seg ->
  (exists st', calculate_body st seg = Ok st' /\ ends_before_last_day seg)
  \/ (exists msg,
        calculate_body st seg = Raise (TravelRuleValidationError msg)
        /\ unsupported_country seg)
  \/ (calculate_body st seg = Raise OverflowError
      /\ ~ unsupported_country seg /\ ends_on_last_day seg).
Proof.
  intros (s & e & Hs & He & Hlt). unfold calculate_body.
  destruct (get_rates_spec (country_code seg))
    as [[rates Hr]|(msg & -> & Hun)]; cbn [bind].
  - rewrite Hr. cbn [bind].
    pose proof (supported_not_unsupported _ _ Hr) as Hsup.
    assert (Hdays : date_of s <= date_of e) by (apply date_of_mono; lia).
    destruct (day_allowance_cases seg rates s e Hs He)
      as [(a & day_steps & ->)|(-> & _ & Hmax)]; cbn [bind].
    + destruct (meal_deductions_cases seg s e (full_day rates) Hs He)
        as [[meal_steps Hm]|(Hm & _ & Hmax)]; rewrite Hm; cbn [bind].
      * left. eexists. split; [reflexivity|].
        intros e' He'. rewrite He in He'. injection He' as <-.
        destruct (Z.lt_ge_cases (date_of e) MAXORDINAL) as [Hok|Hge];
          [exact Hok|].
        rewrite (meal_deductions_overflow seg s e (full_day rates)
                   Hs He Hdays Hge) in Hm.
        discriminate.
      * right; right. split; [reflexivity|]. split; [exact Hsup|].
        now exists e.
    + right; right. split; [reflexivity|]. split; [exact Hsup|].
      now exists e.
  - right; left. exists msg. split; [reflexivity|exact Hun].
Qed.

Lemma ends_before_not_on seg :
  ends_before_last_day seg -> ~ ends_on_last_day seg.
Proof. intros Hb (e & He & Hmax). specialize (Hb e He). lia. Qed.

Lemma loop_cases l st :
  Forall valid_timing l ->
  (exists st', for_each calculate_body l st = Ok st'
               /\ Forall ends_before_last_day l)
  \/ (exists msg,
        for_each calculate_body l st = Raise (TravelRuleValidationError msg)
        /\ Exists unsupported_country l)
  \/ (for_each calculate_body l st = Raise OverflowError
      /\ Exists ends_on_last_day l).
Proof.
  intros Hv. revert st. induction Hv as [|seg l Hseg Hl IH]; intros st.
  - left. eexists; split; [reflexivity|constructor].
  - cbn [for_each].
    destruct (body_cases st seg Hseg)
      as [(st1 & -> & Hend)|[(msg & -> & Hun)|(-> & _ & Hon)]]; cbn [bind].
    + destruct (IH st1) as [(st' & -> & Hends)|[(msg & -> & Hex)|(-> & Hex)]].
      * left. eexists; split; [reflexivity|now constructor].
      * right; left. exists msg. split; [reflexivity|]. now right.
      * right; right. split; [reflexivity|]. now right.
    + right; left. exists msg. split; [reflexivity|]. now left.
    + right; right. split; [reflexivity|]. now left.
Qed.

Lemma loop_spec l st :
  Forall valid_timing l -> Forall ends_before_last_day l ->
  (exists st', for_each calculate_body l st = Ok st')
  \/ (exists msg,
        for_each calculate_body l st = Raise (TravelRuleValidationError msg)
        /\ Exists unsupported_country l).
Proof.
  intros Hv Hends.
  destruct (loop_cases l st Hv) as [(st' & H & _)|[H|(_ & Hex)]].
  - left. now exists st'.
  - now right.
  - apply Exists_exists in Hex as (seg & Hin & Hon).
    rewrite Forall_forall in Hends.
    destruct (ends_before_not_on seg (Hends seg Hin) Hon).
Qed.

Lemma loop_ok_supported l st st' :
  for_each calculate_body l st = Ok st' ->
  Forall (fun seg => ~ unsupported_country seg) l.
Proof.
  revert st. induction l as [|seg l IH]; intros st; [constructor|].
  cbn [for_each].
  destruct (calculate_body st seg) as [st1|] eqn:Hb; [|discriminate].
  cbn [bind]. intros Hloop. constructor; [|eapply IH, Hloop].
  apply body_ok_inv in Hb as (rates & _ & _ & _ & _ & _ & Hr & _).
  eapply supported_not_unsupported, Hr.
Qed.

Lemma calculate_unfold segments :
  _validate_segments segments = Ok tt ->
  calculate segments
  = (call st <-
       for_each calculate_body (sorted_by_start segments)
         (mkState [RuleVersionLine RULE_VERSION] [] (cents 0) (cents 0));
     Ok (mkResult RULE_VERSION
           (Totals.mk (_money (st_gross_total st))
              (_money (st_meal_deduction_total st))
              (_money (dec_sub (st_gross_total st)
                         (st_meal_deduction_total st))))
           (st_steps st
              ++ [OverallTotalLine (_money (st_gross_total st))
                    (_money (st_meal_deduction_total st))
                    (_money (dec_sub (st_gross_total st)
                               (st_meal_deduction_total st)))])
           (st_by_trip st))).
Proof. unfold calculate. intros ->. reflexivity. Qed.

(** The three ways a call of [calculate] can end. *)
Lemma calculate_cases segments :
  (exists r,
     calculate segments = Ok r
     /\ _validate_segments segments = Ok tt
     /\ batch_accepted segments
     /\ batch_supported segments
     /\ StronglySorted precedes (sorted_by_start segments)
     /\ Forall ends_before_last_day segments)
  \/ (exists msg,
        calculate segments = Raise (TravelRuleValidationError msg)
        /\ (batch_rejected segments \/ Exists unsupported_country segments))
  \/ (calculate segments = Raise OverflowError
      /\ batch_accepted segments
      /\ Exists ends_on_last_day segments).
Proof.
  destruct (validate_segments_spec segments)
    as [(Hval & Hacc & Hss)|(msg & Hval & Hrej)].
  - rewrite (calculate_unfold _ Hval).
    assert (Hv : Forall valid_timing (sorted_by_start segments)).
    { rewrite sorted_by_start_perm. apply Hacc. }
    destruct (loop_cases (sorted_by_start segments)
                (mkState [RuleVersionLine RULE_VERSION] [] (cents 0) (cents 0))
                Hv) as [(st & Hloop & Hends)|[(msg & Hloop & Hun)|(Hloop & Hon)]].
    + left. rewrite Hloop. cbn [bind]. eexists. split; [reflexivity|].
      split; [exact Hval|]. split; [exact Hacc|]. split; [|split].
      * unfold batch_supported. rewrite <- (sorted_by_start_perm segments).
        eapply loop_ok_supported, Hloop.
      * exact Hss.
      * now rewrite <- (sorted_by_start_perm segments).
    + right; left. rewrite Hloop. exists msg. split; [reflexivity|]. right.
      now rewrite <- (sorted_by_start_perm segments).
    + right; right. rewrite Hloop. split; [reflexivity|].
      split; [exact Hacc|].
      now rewrite <- (sorted_by_start_perm segments).
  - right; left. exists msg. split; [|now left].
    unfold calculate. rewrite Hval. reflexivity.
Qed.

Lemma calculate_spec segments :
  Forall ends_before_last_day segments ->
  (exists r,
     calculate segments = Ok r
     /\ _validate_segments segments = Ok tt
     /\ batch_accepted segments
     /\ batch_supported segments
     /\ StronglySorted precedes (sorted_by_start segments))
  \/ (exists msg,
        calculate segments = Raise (TravelRuleValidationError msg)
        /\ (batch_rejected segments \/ Exists unsupported_country segments)).
Proof.
  intros Hends.
  destruct (calculate_cases segments)
    as [(r & H & Hval & Hacc & Hsup & Hss & _)|[H|(_ & _ & Hex)]].
  - left. now exists r.
  - now right.
  - apply Exists_exists in Hex as (seg & Hin & Hon).
    rewrite Forall_forall in Hends.
    destruct (ends_before_not_on seg (Hends seg Hin) Hon).
Qed.

(** ** The running totals *)

Lemma dec_sum_snoc l x : dec_sum (l ++ [x]) = dec_add (dec_sum l) x.
Proof. unfold dec_sum. now rewrite fold_left_app. Qed.

Lemma body_balanced st seg st' :
  calculate_body st seg = Ok st' -> balanced st -> balanced st'.
Proof.
  intros (rates & g & d & ds & ms & steps & _ & _ & _ & ->)%body_ok_inv
         (G & D & HG & HD & Hg & Hd & Hn).
  exists (G + g), (D + d). cbn [st_gross_total st_meal_deduction_total st_by_trip].
  rewrite HG, HD, !add_cents, !map_app.
  cbn [map trip_entry Trip.gross_allowance Trip.meal_deductions
         Trip.net_allowance].
  rewrite !dec_sum_snoc, Hg, Hd, Hn, !add_cents.
  repeat split. f_equal. lia.
Qed.

Lemma loop_balanced l st st' :
  for_each calculate_body l st = Ok st' -> balanced st -> balanced st'.
Proof.
  revert st. induction l as [|seg l IH]; intros st; cbn [for_each].
  - now intros [= <-].
  - destruct (calculate_body st seg) as [st1|] eqn:Hb; [|discriminate].
    cbn [bind]. intros Hloop Hbal. eapply IH; [exact Hloop|].
    eapply body_balanced; eassumption.
Qed.

Lemma loop_trip_ids l st st' :
  for_each calculate_body l st = Ok st' ->
  map Trip.trip_id (st_by_trip st')
  = map Trip.trip_id (st_by_trip st) ++ map trip_id l.
Proof.
  revert st. induction l as [|seg l IH]; intros st; cbn [for_each].
  - intros [= <-]. now rewrite app_nil_r.
  - destruct (calculate_body st seg) as [st1|] eqn:Hb; [|discriminate].
    cbn [bind]. intros Hloop. rewrite (IH _ Hloop).
    apply body_ok_inv in Hb as (? & g & d & ? & ? & steps & _ & _ & _ & ->).
    cbn [st_by_trip]. rewrite map_app, <- app_assoc. reflexivity.
Qed.

Lemma calculate_ok_inv segments r :
  calculate segments = Ok r ->
  exists st,
    _validate_segments segments = Ok tt
    /\ for_each calculate_body (sorted_by_start segments)
         (mkState [RuleVersionLine RULE_VERSION] [] (cents 0) (cents 0))
       = Ok st
    /\ rule_version r = RULE_VERSION
    /\ by_trip r = st_by_trip st
    /\ Totals.gross_allowance (totals r) = _money (st_gross_total st)
    /\ Totals.meal_deductions (totals r) = _money (st_meal_deduction_total st)
    /\ Totals.net_allowance (totals r)
       = _money (dec_sub (st_gross_total st) (st_meal_deduction_total st)).
Proof.
  intros Hcalc.
  destruct (_validate_segments segments) as [[]|e] eqn:Hval.
  - rewrite (calculate_unfold _ Hval) in Hcalc.
    destruct (for_each calculate_body _ _) as [st|] eqn:Hloop; [|discriminate].
    cbn [bind] in Hcalc. injection Hcalc as <-. exists st.
    repeat split; reflexivity || assumption.
  - unfold calculate in Hcalc. rewrite Hval in Hcalc. discriminate.
Qed.

Lemma calculate_totals segments r :
  calculate segments = Ok r ->
  Totals.gross_allowance (totals r)
  = dec_sum (map Trip.gross_allowance (by_trip r))
  /\ Totals.meal_deductions (totals r)
     = dec_sum (map Trip.meal_deductions (by_trip r))
  /\ Totals.net_allowance (totals r)
     = dec_sum (map Trip.net_allowance (by_trip r))
  /\ exists n, Totals.net_allowance (totals r) = cents n.
Proof.
  intros (st & _ & Hloop & _ & -> & -> & -> & ->)%calculate_ok_inv.
  apply loop_balanced in Hloop as (G & D & HG & HD & Hg & Hd & Hn).
  - rewrite HG, HD, Hg, Hd, Hn, sub_cents, !money_cents.
    repeat split. now exists (G - D).
  - exists 0, 0. repeat split.
Qed.

(** ** Order of the input *)

Lemma all_receipts_perm l l' : l ≡ₚ l' -> all_receipts l ≡ₚ all_receipts l'.
Proof.
  unfold all_receipts. induction 1 as [|x l l' _ IH|x y l|l l' l'' _ IH1 _ IH2];
    cbn [flat_map].
  - reflexivity.
  - now rewrite IH.
  - rewrite !app_assoc. f_equiv. apply Permutation_app_comm.
  - now rewrite IH1.
Qed.

Lemma batch_accepted_perm l l' :
  l ≡ₚ l' -> batch_accepted l -> batch_accepted l'.
Proof.
  intros Hp (Hne & Hv & Hno & Hnd). split; [|split; [|split]].
  - intros ->. apply Hne. now apply Permutation_nil_r.
  - now rewrite <- Hp.
  - intros Hpair. apply Hno. eapply some_pair_perm; [|exact Hpair].
    now symmetry.
  - eapply NoDup_Permutation_proper; [|exact Hnd].
    apply Permutation_map. symmetry. now apply all_receipts_perm.
Qed.

Lemma starts_le_trans a b c : starts_le a b -> starts_le b c -> starts_le a c.
Proof.
  intros (sa & sb & Ha & Hb & Hab) (sb' & sc & Hb' & Hc & Hbc).
  rewrite Hb in Hb'. simplify_eq. exists sa, sc. repeat split; try assumption.
  lia.
Qed.

Lemma sorted_starts_le l :
  Sorted not_after l -> Forall valid_timing l -> StronglySorted starts_le l.
Proof.
  intros Hs Hv. apply Sorted.Sorted_StronglySorted.
  { intros a b c. apply starts_le_trans. }
  induction Hs as [|a l Hs IH Hhd]; [constructor|].
  inversion Hv as [|? ? (sa & ea & Hsa & _ & _) Hv']; subst.
  constructor; [now apply IH|].
  destruct Hhd as [|b l Hab]; constructor.
  inversion Hv' as [|? ? (sb & eb & Hsb & _ & _) _]; subst.
  unfold not_after in Hab. rewrite Hsa, Hsb in Hab. simpl in Hab.
  apply Z.ltb_ge in Hab. now exists sa, sb.
Qed.

Lemma strongly_sorted_weaken {A} (R R' : A -> A -> Prop) l :
  (forall a b, R a b -> R' a b) -> StronglySorted R l -> StronglySorted R' l.
Proof.
  intros HR. induction 1 as [|x l Hl IH Hx]; constructor; [exact IH|].
  eapply Forall_impl; [exact Hx|]. intros y. apply HR.
Qed.

Lemma precedes_starts_le a b : precedes a b -> starts_le a b.
Proof.
  intros (sa & sb & Ha & Hb & Hlt)%precedes_starts_earlier.
  exists sa, sb. repeat split; try assumption. lia.
Qed.

(** Once a batch has passed the overlap check its starts are pairwise
    different, so every arrangement of it sorts to the same list. *)
Lemma sorted_by_start_unique l l' :
  l ≡ₚ l' -> Forall valid_timing l ->
  StronglySorted precedes (sorted_by_start l) ->
  sorted_by_start l' = sorted_by_start l.
Proof.
  intros Hp Hv Hss. symmetry.
  apply (StronglySorted_unique_strong starts_le).
  - intros x1 x2 Hx1 Hx2 (s1 & s2 & Hs1 & Hs2 & Hle12)
           (s2' & s1' & Hs2' & Hs1' & Hle21).
    rewrite Hs1 in Hs1'. rewrite Hs2 in Hs2'. simplify_eq.
    assert (Hx2' : x2 ∈ sorted_by_start l).
    { now rewrite sorted_by_start_perm, Hp, <- (sorted_by_start_perm l'). }
    apply list_elem_of_lookup in Hx1 as [i Hi].
    apply list_elem_of_lookup in Hx2' as [j Hj].
    destruct (Nat.lt_total i j) as [Hlt|[->|Hgt]].
    + pose proof (strongly_sorted_lookup _ _ _ _ _ _ Hss Hlt Hi Hj) as Hprec.
      apply precedes_starts_earlier in Hprec as (a1 & a2 & H1 & H2 & Hlt').
      rewrite Hs1 in H1. rewrite Hs2 in H2. simplify_eq. lia.
    + rewrite Hi in Hj. now injection Hj.
    + pose proof (strongly_sorted_lookup _ _ _ _ _ _ Hss Hgt Hj Hi) as Hprec.
      apply precedes_starts_earlier in Hprec as (a2 & a1 & H2 & H1 & Hlt').
      rewrite Hs1 in H1. rewrite Hs2 in H2. simplify_eq. lia.
  - eapply strongly_sorted_weaken; [apply precedes_starts_le|exact Hss].
  - apply sorted_starts_le; [apply sorted_by_start_sorted|].
    now rewrite sorted_by_start_perm, <- Hp.
  - now rewrite !sorted_by_start_perm.
Qed.

(** * The engine against its documentation *)

(** C1, as it reads, fails at the end of the calendar: the domestic trip
    from 9999-12-30T08:00 to 9999-12-31T18:00 starts and ends on different
    dates and has its rates, yet the day allocator pays nothing: it raises
    [OverflowError], and so does [calculate]. *)
Lemma C1_counterexample :
  start last_night_trip = Some (mk_datetime 9999 12 30 8 0)
  /\ end_ last_night_trip = Some (mk_datetime 9999 12 31 18 0)
  /\ mk_datetime 9999 12 30 8 0 < mk_datetime 9999 12 31 18 0
  /\ date_of (mk_datetime 9999 12 30 8 0)
     <> date_of (mk_datetime 9999 12 31 18 0)
  /\ _get_rates_for_country (country_code last_night_trip) = Ok DOMESTIC_RATES
  /\ _calculate_day_allowance last_night_trip DOMESTIC_RATES
     = Raise OverflowError
  /\ calculate [last_night_trip] = Raise OverflowError.
Proof.
  split; [reflexivity|]. split; [reflexivity|]. split; [reflexivity|].
  split; [vm_compute; discriminate|].
  split; [reflexivity|]. split; vm_compute; reflexivity.
Qed.

(** C1, amended. A segment with naive timestamps that starts and ends on
    different calendar dates, the last of them before 9999-12-31, is paid
    the partial-day rate for its first date, the partial-day rate for its
    last date and the full-day rate for every date strictly between them,
    whatever the hours spent on the first and last day; the domestic trip
    from 2026-02-01T08:00 to 2026-02-03T18:00 is paid 56.00. *)
Theorem C1_multi_day_allowance :
  (forall segment s e rates,
     start segment = Some s -> end_ segment = Some e ->
     s < e -> date_of s <> date_of e -> date_of e < MAXORDINAL ->
     _get_rates_for_country (country_code segment) = Ok rates ->
     exists steps,
       _calculate_day_allowance segment rates
       = Ok (dec_add
               (dec_add (partial_day rates)
                  (dec_mul (dec_of_Z (date_of e - date_of s - 1))
                     (full_day rates)))
               (partial_day rates),
             steps))
  /\ (exists r,
        calculate [three_day_trip] = Ok r
        /\ map Trip.gross_allowance (by_trip r) = [cents 5600]
        /\ Totals.gross_allowance (totals r) = cents 5600).
Proof.
  split.
  - intros segment s e rates Hs He Hlt Hne Hmax Hrates.
    apply multi_day_allowance; try assumption.
    pose proof (date_of_mono s e). lia.
  - eexists. split; [vm_compute; reflexivity|]. split; reflexivity.
Qed.

Lemma C1_multi_day_allowance_witness :
  exists steps,
    _calculate_day_allowance overnight_trip DOMESTIC_RATES
    = Ok (cents 2800, steps).
Proof.
  apply (proj1 C1_multi_day_allowance overnight_trip
           (mk_datetime 2026 2 1 23 0) (mk_datetime 2026 2 2 1 0)
           DOMESTIC_RATES eq_refl eq_refl).
  - reflexivity.
  - vm_compute. discriminate.
  - reflexivity.
  - reflexivity.
Defined.

(** C2. A segment that starts and ends on the same calendar date is paid
    the partial-day rate of its country when it lasts at least eight hours
    and 0.00 when it lasts less; for a domestic segment the two amounts are
    14.00 and 0.00. *)
Theorem C2_single_day_allowance segment s e rates :
  start segment = Some s -> end_ segment = Some e ->
  date_of s = date_of e ->
  _get_rates_for_country (country_code segment) = Ok rates ->
  (exists steps,
     _calculate_day_allowance segment rates
     = Ok (if EIGHT_HOURS <=? dt_sub e s then partial_day rates else cents 0,
           steps))
  /\ (upper (country_code segment) = "DE"%string ->
      partial_day rates = cents 1400).
Proof.
  intros Hs He Hday Hrates. split.
  - now apply single_day_allowance.
  - intros Hde. rewrite (domestic_rates _ _ Hrates Hde). reflexivity.
Qed.

Lemma C2_single_day_allowance_witness :
  (exists steps,
     _calculate_day_allowance long_day_trip DOMESTIC_RATES
     = Ok (cents 1400, steps))
  /\ (exists steps,
        _calculate_day_allowance short_day_trip DOMESTIC_RATES
        = Ok (cents 0, steps)).
Proof.
  split.
  - apply (proj1 (C2_single_day_allowance long_day_trip
             (mk_datetime 2026 2 1 9 0) (mk_datetime 2026 2 1 17 0)
             DOMESTIC_RATES eq_refl eq_refl eq_refl eq_refl)).
  - apply (proj1 (C2_single_day_allowance short_day_trip
             (mk_datetime 2026 2 1 9 0) (mk_datetime 2026 2 1 16 59)
             DOMESTIC_RATES eq_refl eq_refl eq_refl eq_refl)).
Defined.

Lemma meal_deductions_need_times seg full_day_rate a steps :
  _calculate_meal_deductions seg full_day_rate = Ok (a, steps) ->
  exists s e, start seg = Some s /\ end_ seg = Some e.
Proof.
  unfold _calculate_meal_deductions.
  destruct (start seg) as [s|], (end_ seg) as [e|]; try discriminate.
  intros _. now exists s, e.
Qed.

(** C3. At the end of the calendar the engine does not take the deduction
    that C3 describes.  The domestic trip of 9999-12-31 from 08:00 to 18:00
    has one date in its span, whose record flags breakfast, so its deduction
    should be 20% of the full-day rate 28.00, which is 5.60; the meal
    calculator raises [OverflowError] instead, once it has dealt with the
    date and steps to the next one, and [calculate] returns nothing. *)
Theorem C3_meal_deductions_at_last_day :
  start last_day_trip_with_breakfast = Some (mk_datetime 9999 12 31 8 0)
  /\ end_ last_day_trip_with_breakfast = Some (mk_datetime 9999 12 31 18 0)
  /\ dec_sum
       (map (day_deduction (cents 2800)
               (provided_meals last_day_trip_with_breakfast))
          (days_span (date_of (mk_datetime 9999 12 31 8 0))
             (date_of (mk_datetime 9999 12 31 18 0))))
     = cents 560
  /\ _calculate_meal_deductions last_day_trip_with_breakfast (cents 2800)
     = Raise OverflowError
  /\ calculate [last_day_trip_with_breakfast] = Raise OverflowError.
Proof.
  split; [reflexivity|]. split; [reflexivity|].
  split; [vm_compute; reflexivity|].
  split; vm_compute; reflexivity.
Qed.

Lemma touching_not_overlapping a b t :
  end_ a = Some t -> start b = Some t -> ~ some_pair overlaps [a; b].
Proof.
  intros Ha Hb (i & j & x & y & Hij & Hi & Hj & Ho).
  assert (Hab : ~ overlaps a b).
  { intros (sa & ea & sb & eb & _ & Hea & Hsb & _ & _ & Hlt).
    rewrite Ha in Hea. rewrite Hb in Hsb. simplify_eq. lia. }
  destruct i as [|[|i]], j as [|[|j]]; simpl in Hi, Hj; simplify_eq;
    try (now apply Hij); try (now apply Hab); now apply Hab, overlaps_sym.
Qed.

(** C4. On a batch whose segments all end after they start, the overlap
    validation (sort by start, compare neighbours) raises exactly when two
    segments of the batch, neighbours or not, share time; two segments one
    of which starts when the other ends pass. *)
Theorem C4_overlap_validation :
  (forall segments,
     Forall valid_timing segments ->
     ((exists msg,
         _validate_overlaps segments = Raise (TravelRuleValidationError msg))
      <-> some_pair overlaps segments)
     /\ (_validate_overlaps segments = Ok tt
         <-> ~ some_pair overlaps segments))
  /\ (forall a b t,
        valid_timing a -> valid_timing b ->
        end_ a = Some t -> start b = Some t ->
        _validate_overlaps [a; b] = Ok tt /\ _validate_overlaps [b; a] = Ok tt).
Proof.
  assert (Hmain : forall segments,
     Forall valid_timing segments ->
     ((exists msg,
         _validate_overlaps segments = Raise (TravelRuleValidationError msg))
      <-> some_pair overlaps segments)
     /\ (_validate_overlaps segments = Ok tt
         <-> ~ some_pair overlaps segments)).
  { intros segments Hv.
    destruct (validate_overlaps_spec segments Hv)
      as [(Hok & _ & Hno)|(prev & cur & Hr & Hpair)]; rewrite ?Hok, ?Hr.
    - split; split; try (intros; contradiction || reflexivity || assumption).
      + intros [msg H]. discriminate H.
    - split; split; try (intros; contradiction || discriminate).
      + intros _. exact Hpair.
      + intros _. eexists; reflexivity. }
  split; [exact Hmain|].
  intros a b t Ha Hb Hea Hsb. split.
  - apply Hmain; [repeat constructor; assumption|].
    eapply touching_not_overlapping; eassumption.
  - apply Hmain; [repeat constructor; assumption|].
    intros Hpair. eapply (touching_not_overlapping a b t); try eassumption.
    eapply some_pair_perm; [|exact Hpair]. apply perm_swap.
Qed.

Lemma example_times_valid tid s e meals :
  s < e -> valid_timing (domestic_segment tid s e meals).
Proof. intros H. now exists s, e. Qed.

Lemma C4_overlap_validation_witness :
  (_validate_overlaps [morning_trip; midday_trip] = Ok tt
   /\ _validate_overlaps [midday_trip; morning_trip] = Ok tt)
  /\ (exists msg,
        _validate_overlaps [late_morning_trip; morning_trip; midday_trip]
        = Raise (TravelRuleValidationError msg)).
Proof.
  split.
  - apply (proj2 C4_overlap_validation morning_trip midday_trip
             (mk_datetime 2026 3 2 10 0)).
    + apply example_times_valid. reflexivity.
    + apply example_times_valid. reflexivity.
    + reflexivity.
    + reflexivity.
  - apply (proj1 C4_overlap_validation
             [late_morning_trip; morning_trip; midday_trip]).
    + repeat constructor; apply example_times_valid; reflexivity.
    + exists 0%nat, 2%nat, late_morning_trip, midday_trip.
      split; [discriminate|]. split; [reflexivity|]. split; [reflexivity|].
      eexists _, _, _, _. repeat split; reflexivity.
Defined.

Lemma two_trip_batch_calculated : calculate two_trip_batch = Ok two_trip_result.
Proof. vm_compute. reflexivity. Defined.

(** C5, as it reads, fails at the end of the calendar.  The domestic trip
    of 9999-12-31 from 08:00 to 18:00 gets neither the precondition error
    nor a result: [calculate] raises [OverflowError].  And a batch with an
    unconfigured country code need not get the precondition error: when the
    trip that starts before it is on 9999-12-31, that trip raises
    [OverflowError] before the code is looked up. *)
Lemma C5_counterexample :
  calculate [last_day_trip] = Raise OverflowError
  /\ Exists unsupported_country last_day_batch
  /\ calculate last_day_batch = Raise OverflowError.
Proof.
  split; [vm_compute; reflexivity|]. split; [|vm_compute; reflexivity].
  right; left. split; [vm_compute; discriminate|vm_compute; reflexivity].
Qed.

(** C5, amended. The precondition error is raised only for a batch that
    is empty, or has a segment that lacks its start or end or does not end
    after it starts, or has two segments that overlap, or two receipts that
    share an id, or a segment whose upper-cased country code is neither DE
    nor in the rate table; an empty batch and a batch with one of the
    timing, overlap or receipt defects always gets it.  For a batch of
    naive timestamps whose segments all end before 9999-12-31 the error is
    raised exactly in those five cases, and every other such batch gets a
    complete result. *)
Theorem C5_precondition_errors segments :
  ((exists msg, calculate segments = Raise (TravelRuleValidationError msg))
   -> (segments = []
       \/ Exists bad_timing segments
       \/ some_pair overlaps segments
       \/ some_pair same_receipt_id (all_receipts segments)
       \/ Exists unsupported_country segments))
  /\ (segments = []
      \/ Exists bad_timing segments
      \/ some_pair overlaps segments
      \/ some_pair same_receipt_id (all_receipts segments)
      -> exists msg, calculate segments = Raise (TravelRuleValidationError msg))
  /\ (Forall ends_before_last_day segments ->
      ((exists msg, calculate segments = Raise (TravelRuleValidationError msg))
       <-> (segments = []
            \/ Exists bad_timing segments
            \/ some_pair overlaps segments
            \/ some_pair same_receipt_id (all_receipts segments)
            \/ Exists unsupported_country segments))
      /\ ((exists msg,
             calculate segments = Raise (TravelRuleValidationError msg))
          \/ (exists r,
                calculate segments = Ok r
                /\ rule_version r = RULE_VERSION
                /\ map Trip.trip_id (by_trip r)
                   = map trip_id (sorted_by_start segments)))).
Proof.
  split; [|split].
  - intros [msg H].
    destruct (calculate_cases segments)
      as [(r & Hcalc & _)|[(msg' & _ & Hbad)|(Hcalc & _)]];
      [rewrite Hcalc in H; discriminate| |rewrite Hcalc in H; discriminate].
    unfold batch_rejected in Hbad. tauto.
  - intros Hrej.
    destruct (validate_segments_spec segments)
      as [(_ & Hacc & _)|(msg & Hval & _)].
    + exfalso. apply (accepted_not_rejected segments Hacc).
      unfold batch_rejected. tauto.
    + exists msg. unfold calculate. rewrite Hval. reflexivity.
  - intros Hends.
    destruct (calculate_spec segments Hends)
      as [(r & Hcalc & Hval & Hacc & Hsup & _)|(msg & Hcalc & Hbad)].
    + split.
      * split.
        -- intros [msg H]. rewrite Hcalc in H. discriminate.
        -- intros Hbad. exfalso.
           assert (Hrej : batch_rejected segments
                          \/ Exists unsupported_country segments).
           { unfold batch_rejected. tauto. }
           destruct Hrej as [Hrej|Hun].
           ++ now apply (accepted_not_rejected segments).
           ++ apply Exists_exists in Hun as (x & Hx & Hun).
              unfold batch_supported in Hsup. rewrite Forall_forall in Hsup.
              now apply (Hsup x Hx).
      * right. exists r. split; [exact Hcalc|].
        apply calculate_ok_inv in Hcalc
          as (st & _ & Hloop & Hver & Hby & _). split; [exact Hver|].
        rewrite Hby. now rewrite (loop_trip_ids _ _ _ Hloop).
    + split.
      * split.
        -- intros _. unfold batch_rejected in Hbad. tauto.
        -- intros _. now exists msg.
      * left. now exists msg.
Qed.

Lemma ends_before_last_day_intro seg e :
  end_ seg = Some e -> date_of e < MAXORDINAL -> ends_before_last_day seg.
Proof. intros He Hmax e' He'. rewrite He in He'. now injection He' as <-. Qed.

Lemma C5_precondition_errors_witness :
  (exists msg,
     calculate unsupported_batch = Raise (TravelRuleValidationError msg))
  /\ exists r,
       calculate two_trip_batch = Ok r
       /\ rule_version r = RULE_VERSION
       /\ map Trip.trip_id (by_trip r)
          = map trip_id (sorted_by_start two_trip_batch).
Proof.
  split.
  - apply (proj2 (proj1 (proj2 (proj2 (C5_precondition_errors
                                         unsupported_batch))
                           ltac:(repeat constructor;
                                 eapply ends_before_last_day_intro;
                                 reflexivity)))).
    do 4 right. left.
    split; [vm_compute; discriminate|vm_compute; reflexivity].
  - destruct (proj2 (proj2 (proj2 (C5_precondition_errors two_trip_batch))
                       ltac:(repeat constructor;
                             eapply ends_before_last_day_intro;
                             reflexivity)))
      as [[msg H]|H]; [|exact H].
    rewrite two_trip_batch_calculated in H. discriminate.
Defined.



(** Rounding comes before accumulation inside the meal calculator too: at
    a full-day rate of 0.01 each of the three meal deductions rounds to
    0.00, so the segment's deduction is 0.00, where the unrounded products
    0.0020 + 0.0040 + 0.0040 would round to 0.01. *)
Lemma meal_rounding_precedes_sum :
  (exists steps,
     _calculate_meal_deductions
       (domestic_segment "M" (mk_datetime 2026 2 1 9 0)
          (mk_datetime 2026 2 1 17 0)
          [mkMeals (_ymd2ord 2026 2 1) true true true])
       (cents 1)
     = Ok (cents 0, steps))
  /\ _money
       (dec_add
          (dec_add (dec_mul (cents 1) (cents 20)) (dec_mul (cents 1) (cents 40)))
          (dec_mul (cents 1) (cents 40)))
     = cents 1.
Proof. split; [eexists|]; vm_compute; reflexivity. Qed.




(** C7. Whenever [calculate] succeeds, the grand net allowance and the sum
    of the per-trip net allowances differ by at most 0.01 for each segment
    of the batch. *)
Theorem C7_rounding_drift segments r :
  calculate segments = Ok r ->
  dec_leb
    (dec_abs
       (dec_sub (Totals.net_allowance (totals r))
          (dec_sum (map Trip.net_allowance (by_trip r)))))
    (dec_mul (cents 1) (dec_of_Z (Z.of_nat (length segments))))
  = true.
Proof.
  intros (_ & _ & <- & n & ->)%calculate_totals.
  rewrite sub_cents. unfold dec_leb, dec_abs, dec_mul, scaled, cents, dec_of_Z.
  cbn [coef expo]. change (-2 + 0) with (-2).
  rewrite Z.min_id, Z.sub_diag, Z.pow_0_r. apply Z.leb_le. lia.
Qed.

Lemma C7_rounding_drift_witness :
  dec_leb
    (dec_abs
       (dec_sub (Totals.net_allowance (totals two_trip_result))
          (dec_sum (map Trip.net_allowance (by_trip two_trip_result)))))
    (dec_mul (cents 1) (dec_of_Z 2))
  = true.
Proof.
  exact (C7_rounding_drift two_trip_batch two_trip_result
           two_trip_batch_calculated).
Defined.

(** C8. When [calculate] succeeds on a batch it returns the very same
    result on every rearrangement of the batch; the per-trip entries follow
    the ascending order of the starts. *)
Theorem C8_order_independent segments segments' r :
  calculate segments = Ok r ->
  segments ≡ₚ segments' ->
  calculate segments' = Ok r
  /\ map Trip.trip_id (by_trip r) = map trip_id (sorted_by_start segments')
  /\ StronglySorted precedes (sorted_by_start segments').
Proof.
  intros Hcalc Hp.
  destruct (calculate_cases segments)
    as [(r0 & Hcalc0 & Hval & Hacc & _ & Hss & _)
       |[(msg & Hcalc0 & _)|(Hcalc0 & _)]];
    [|congruence|congruence].
  assert (Hsorted : sorted_by_start segments' = sorted_by_start segments).
  { apply sorted_by_start_unique; [exact Hp|apply Hacc|exact Hss]. }
  assert (Hval' : _validate_segments segments' = Ok tt).
  { destruct (validate_segments_spec segments')
      as [(H & _)|(msg & _ & Hrej)]; [exact H|].
    exfalso. apply (accepted_not_rejected segments'); [|exact Hrej].
    eapply batch_accepted_perm; eassumption. }
  split; [|split].
  - rewrite (calculate_unfold _ Hval'), Hsorted, <- (calculate_unfold _ Hval).
    exact Hcalc.
  - rewrite Hsorted.
    apply calculate_ok_inv in Hcalc as (st & _ & Hloop & _ & -> & _).
    now rewrite (loop_trip_ids _ _ _ Hloop).
  - now rewrite Hsorted.
Qed.

Lemma C8_order_independent_witness :
  calculate [three_day_trip_with_meals; short_trip_with_breakfast]
  = Ok two_trip_result.
Proof.
  exact (proj1 (C8_order_independent two_trip_batch
                  [three_day_trip_with_meals; short_trip_with_breakfast]
                  two_trip_result two_trip_batch_calculated
                  (perm_swap _ _ []))).
Defined.

Lemma configured_meals_positive rates (b l d : bool) :
  rates ∈ configured_rates ->
  b || l || d = true ->
  exists x,
    dec_sum
      [if b then _money (dec_mul (full_day rates) (cents 20)) else cents 0;
       if l then _money (dec_mul (full_day rates) (cents 40)) else cents 0;
       if d then _money (dec_mul (full_day rates) (cents 40)) else cents 0]
    = cents x
    /\ 0 < x.
Proof.
  unfold configured_rates. intros Hin Hflag.
  repeat (apply elem_of_cons in Hin as [->|Hin];
          [destruct b, l, d; try discriminate Hflag;
           eexists; (split; [vm_compute; reflexivity|reflexivity])|]).
  inversion Hin.
Qed.

Lemma single_span (d : date) : days_span d d = [d].
Proof.
  unfold days_span. replace (d - d + 1) with 1 by lia. reflexivity.
Qed.

Lemma single_segment_accepted seg s e :
  start seg = Some s -> end_ seg = Some e -> s < e ->
  NoDup (map receipt_id (receipts seg)) ->
  batch_accepted [seg].
Proof.
  intros Hs He Hlt Hnd. split; [discriminate|]. split; [|split].
  - repeat constructor. now exists s, e.
  - intros (i & j & a & b & Hij & Hi & Hj & _).
    destruct i as [|i], j as [|j]; simpl in Hi, Hj; try discriminate.
    now apply Hij.
  - unfold all_receipts. cbn [flat_map]. now rewrite app_nil_r.
Qed.

(** C9. At the end of the calendar the engine does not reach the negative
    net allowance that C9 describes.  The domestic trip of 9999-12-31 from
    09:00 to 12:00 lies within one date and is shorter than eight hours,
    and the record of its date flags breakfast: the gross allowance is 0.00
    and the deduction of the date would be 5.60, but the meal calculator
    raises [OverflowError] once it has dealt with the date and steps to the
    next one, so [calculate] returns no result. *)
Theorem C9_negative_net_at_last_day :
  start last_day_short_trip_with_breakfast
  = Some (mk_datetime 9999 12 31 9 0)
  /\ end_ last_day_short_trip_with_breakfast
     = Some (mk_datetime 9999 12 31 12 0)
  /\ dt_sub (mk_datetime 9999 12 31 12 0) (mk_datetime 9999 12 31 9 0)
     < EIGHT_HOURS
  /\ record_for (provided_meals last_day_short_trip_with_breakfast)
       (date_of (mk_datetime 9999 12 31 9 0))
     = Some (mkMeals (_ymd2ord 9999 12 31) true false false)
  /\ (exists steps,
        _calculate_day_allowance last_day_short_trip_with_breakfast
          DOMESTIC_RATES
        = Ok (cents 0, steps))
  /\ day_deduction (cents 2800)
       (provided_meals last_day_short_trip_with_breakfast)
       (date_of (mk_datetime 9999 12 31 9 0))
     = cents 560
  /\ _calculate_meal_deductions last_day_short_trip_with_breakfast
       (cents 2800)
     = Raise OverflowError
  /\ calculate [last_day_short_trip_with_breakfast] = Raise OverflowError.
Proof.
  split; [reflexivity|]. split; [reflexivity|]. split; [reflexivity|].
  split; [vm_compute; reflexivity|].
  split; [eexists; vm_compute; reflexivity|].
  split; [vm_compute; reflexivity|].
  split; vm_compute; reflexivity.
Qed.








(** * Further properties of the engine *)

(** ** Rounding *)

Lemma money_coarse d :
  -2 <= expo d -> _money d = cents (coef d * 10 ^ (expo d + 2)).
Proof.
  intros H. unfold _money, quantize_half_up, scaled, cents.
  destruct (Z.leb_spec (-2) (expo d)) as [_|Hlt]; [|lia].
  replace (expo d - -2) with (expo d + 2) by lia. reflexivity.
Qed.

Lemma money_fine d :
  expo d < -2 ->
  let p := 10 ^ (-2 - expo d) in
  0 < p
  /\ 2 * Z.abs (coef d - coef (_money d) * p) <= p
  /\ (2 * (Z.abs (coef d) mod p) = p ->
      Z.abs (coef (_money d)) = Z.abs (coef d) / p + 1).
Proof.
  intros Hlt p.
  assert (Hp : 0 < p) by (apply Z.pow_pos_nonneg; lia).
  split; [exact Hp|].
  unfold _money, quantize_half_up.
  destruct (Z.leb_spec (-2) (expo d)) as [Hle|_]; [lia|].
  fold p. cbn [coef].
  pose proof (Z.div_mod (Z.abs (coef d)) p ltac:(lia)) as Hdm.
  pose proof (Z.mod_pos_bound (Z.abs (coef d)) p Hp) as Hr.
  assert (Hq : 0 <= Z.abs (coef d) / p).
  { apply Z.div_pos; lia. }
  set (q := Z.abs (coef d) / p) in *.
  set (r := Z.abs (coef d) mod p) in *.
  destruct (Z.leb_spec p (2 * r)) as [Hup|Hdown].
  - split.
    + destruct (Z.abs_spec (coef d)) as [[Hc Ha]|[Hc Ha]].
      * destruct (Z.eq_dec (coef d) 0) as [H0|H0].
        -- exfalso. rewrite H0 in *. simpl in Ha. nia.
        -- rewrite Z.sgn_pos by lia. nia.
      * rewrite Z.sgn_neg by lia. nia.
    + intros _.
      destruct (Z.abs_spec (coef d)) as [[Hc Ha]|[Hc Ha]].
      * destruct (Z.eq_dec (coef d) 0) as [H0|H0].
        -- exfalso. rewrite H0 in *. simpl in Ha. nia.
        -- rewrite Z.sgn_pos by lia. lia.
      * rewrite Z.sgn_neg by lia. lia.
  - split; [|lia].
    destruct (Z.abs_spec (coef d)) as [[Hc Ha]|[Hc Ha]].
    + destruct (Z.eq_dec (coef d) 0) as [H0|H0].
      * rewrite H0. simpl. nia.
      * rewrite Z.sgn_pos by lia. nia.
    + rewrite Z.sgn_neg by lia. nia.
Qed.

(** X1. On a value whose rounded coefficient has at most 28 digits, where
    [quantize] returns, [_money] yields a two-place Decimal and changes
    nothing when applied twice.  A value with at most two places keeps its
    value; a value with more places moves by at most half a cent, and a
    value exactly between two cents goes to the one farther from zero. *)
Theorem X1_money_rounds_half_up d :
  within_precision (_money d) ->
  expo (_money d) = -2
  /\ _money (_money d) = _money d
  /\ (-2 <= expo d -> coef (_money d) = coef d * 10 ^ (expo d + 2))
  /\ (expo d < -2 ->
      let p := 10 ^ (-2 - expo d) in
      2 * Z.abs (coef d - coef (_money d) * p) <= p
      /\ (2 * (Z.abs (coef d) mod p) = p ->
          Z.abs (coef (_money d)) = Z.abs (coef d) / p + 1)).
Proof.
  intros _.
  split; [apply money_expo|]. split; [apply money_idem|]. split.
  - intros H. now rewrite (money_coarse d H).
  - intros H. apply (money_fine d H).
Qed.

Lemma X1_money_rounds_half_up_witness :
  2 * Z.abs (5 - coef (_money (mkDec 5 (-3))) * 10 ^ 1) <= 10 ^ 1
  /\ Z.abs (coef (_money (mkDec 5 (-3)))) = 5 / 10 ^ 1 + 1.
Proof.
  destruct (proj2 (proj2 (proj2 (X1_money_rounds_half_up (mkDec 5 (-3))
                                   eq_refl)))
              eq_refl) as [Hnear Htie].
  split; [exact Hnear|]. apply Htie. reflexivity.
Defined.

(** ** Rate Resolver *)

Lemma upper_char_idem c : upper_char (upper_char c) = upper_char c.
Proof. destruct c as [[] [] [] [] [] [] [] []]; reflexivity. Qed.

Lemma upper_idem s : upper (upper s) = upper s.
Proof.
  induction s as [|c s IH]; [reflexivity|].
  cbn [upper]. now rewrite upper_char_idem, IH.
Qed.

Lemma configured_rates_ordered rates :
  rates ∈ configured_rates ->
  exists f p, rates = mkRates (cents f) (cents p) /\ 0 < p /\ p < f.
Proof.
  unfold configured_rates. intros H.
  repeat (apply elem_of_cons in H as [->|H];
          [eexists _, _; split; [reflexivity|split; reflexivity]|]).
  inversion H.
Qed.

(** X2. The resolver looks only at the upper-cased code: a code and its
    upper-cased form get the same answer, and so do two codes that differ
    in letter case only. *)
Theorem X2_rates_ignore_case :
  (forall c, _get_rates_for_country (upper c) = _get_rates_for_country c)
  /\ (forall c c',
        upper c = upper c' ->
        _get_rates_for_country c = _get_rates_for_country c').
Proof.
  split.
  - intros c. unfold _get_rates_for_country. now rewrite upper_idem.
  - intros c c' H. unfold _get_rates_for_country. now rewrite H.
Qed.

Lemma X2_rates_ignore_case_witness :
  _get_rates_for_country "ch" = _get_rates_for_country "Ch".
Proof.
  apply (proj2 X2_rates_ignore_case "ch"%string "Ch"%string). reflexivity.
Defined.

(** X3. Whatever code the resolver accepts, the rate set it returns has
    two-place amounts with 0 < partial-day rate < full-day rate; whatever
    code it turns down, the error names the upper-cased code. *)
Theorem X3_rates_well_formed c :
  (forall rates,
     _get_rates_for_country c = Ok rates ->
     exists f p, rates = mkRates (cents f) (cents p) /\ 0 < p /\ p < f)
  /\ (forall e,
        _get_rates_for_country c = Raise e ->
        e = TravelRuleValidationError (unsupported_message (upper c))
        /\ upper c <> "DE"%string
        /\ INTERNATIONAL_RATE_TABLE !! upper c = None).
Proof.
  split.
  - intros rates H. eapply configured_rates_ordered, get_rates_configured, H.
  - intros e. unfold _get_rates_for_country.
    destruct (String.eqb_spec (upper c) "DE") as [|Hne]; [discriminate|].
    destruct (INTERNATIONAL_RATE_TABLE !! upper c) eqn:E; [discriminate|].
    intros [= <-]. now repeat split.
Qed.

Lemma X3_rates_well_formed_witness :
  (exists f p,
     mkRates (cents 5300) (cents 3500) = mkRates (cents f) (cents p)
     /\ 0 < p /\ p < f)
  /\ TravelRuleValidationError
       "No international per-diem rates configured for country code ZZ."
     = TravelRuleValidationError (unsupported_message (upper "zz")).
Proof.
  split.
  - apply (proj1 (X3_rates_well_formed "fr")). reflexivity.
  - apply (proj2 (X3_rates_well_formed "zz")). reflexivity.
Defined.

(** ** The persistence wrapper *)

(** X4. [calculate_and_persist] returns exactly what [calculate] returns,
    result or error: the rule version it stamps is the one [calculate] has
    already put on the result. *)
Theorem X4_persist_is_calculate segments :
  calculate_and_persist segments = calculate segments.
Proof.
  unfold calculate_and_persist.
  destruct (calculate segments) as [r|e] eqn:Hcalc; [|reflexivity].
  cbn [bind].
  apply calculate_ok_inv in Hcalc as (_ & _ & _ & Hver & _).
  destruct r as [v t st bt]. cbn in *. now subst v.
Qed.

(** ** Which error the validator reports *)

Lemma validate_segments_unfold segments :
  segments <> [] ->
  _validate_segments segments
  = (check for_each timing_check segments tt;
     check _validate_overlaps segments;
     _validate_duplicate_receipts segments).
Proof. destruct segments; [congruence|reflexivity]. Qed.

Lemma timing_checks_pass l :
  Forall valid_timing l -> for_each timing_check l tt = Ok tt.
Proof.
  induction 1 as [|seg l Hseg _ IH]; [reflexivity|].
  cbn [for_each]. now rewrite (timing_check_valid seg Hseg).
Qed.

Lemma first_bad_timing pre seg post e :
  Forall valid_timing pre ->
  timing_check tt seg = Raise e ->
  calculate (pre ++ seg :: post) = Raise e
  /\ _validate_segments (pre ++ seg :: post) = Raise e.
Proof.
  intros Hpre Hseg.
  assert (Hval : _validate_segments (pre ++ seg :: post) = Raise e).
  { rewrite validate_segments_unfold by (now destruct pre).
    rewrite for_each_app, (timing_checks_pass pre Hpre). cbn [bind for_each].
    now rewrite Hseg. }
  split; [|exact Hval]. unfold calculate. now rewrite Hval.
Qed.

(** X5. Timing errors come first and follow the input order: when the
    segments before [seg] are well timed and [seg] is not, [calculate]
    raises the error of [seg] - "missing start/end" when a bound is missing,
    "impossible time span" when the end is not after the start - whatever
    the later segments, overlaps, receipts or country codes are. *)
Theorem X5_first_timing_error pre seg post :
  Forall valid_timing pre ->
  (start seg = None \/ end_ seg = None ->
   calculate (pre ++ seg :: post)
   = Raise (TravelRuleValidationError (missing_message seg)))
  /\ (forall s e,
        start seg = Some s -> end_ seg = Some e -> e <= s ->
        calculate (pre ++ seg :: post)
        = Raise (TravelRuleValidationError (impossible_message seg))).
Proof.
  intros Hpre. split.
  - intros Hmiss. apply first_bad_timing; [exact Hpre|].
    unfold timing_check.
    destruct Hmiss as [-> | ->]; [reflexivity|].
    now destruct (start seg).
  - intros s e Hs He Hle. apply first_bad_timing; [exact Hpre|].
    unfold timing_check. rewrite Hs, He.
    now destruct (Z.leb_spec e s); [|lia].
Qed.

Lemma X5_first_timing_error_witness :
  calculate [morning_trip; endless_trip; backwards_trip; late_morning_trip]
  = Raise (TravelRuleValidationError
             "Trip E1 has missing start/end datetime.")
  /\ calculate [morning_trip; backwards_trip; endless_trip]
     = Raise (TravelRuleValidationError
                "Trip E2 has impossible time span (end before/equal start).").
Proof.
  split.
  - apply (proj1 (X5_first_timing_error [morning_trip] endless_trip
                    [backwards_trip; late_morning_trip]
                    ltac:(repeat constructor; apply example_times_valid;
                          reflexivity))).
    right. reflexivity.
  - apply (proj2 (X5_first_timing_error [morning_trip] backwards_trip
                    [endless_trip]
                    ltac:(repeat constructor; apply example_times_valid;
                          reflexivity))
             (mk_datetime 2026 3 2 9 0) (mk_datetime 2026 3 2 9 0)
             eq_refl eq_refl).
    vm_compute. discriminate.
Defined.

(** X6. When the overlap check fails on a well-timed batch, its message
    names two segments of the batch that do overlap, the one that starts
    first (or no later) named first. *)
Theorem X6_overlap_error_names_pair segments e :
  Forall valid_timing segments ->
  _validate_overlaps segments = Raise e ->
  exists prev cur sp sc,
    e = TravelRuleValidationError (overlap_message prev cur)
    /\ prev ∈ segments /\ cur ∈ segments
    /\ overlaps prev cur
    /\ start prev = Some sp /\ start cur = Some sc /\ sp <= sc.
Proof.
  intros Hv Hr.
  assert (Hv' : Forall valid_timing (sorted_by_start segments)).
  { now rewrite sorted_by_start_perm. }
  destruct (adjacent_pairs_spec _ (sorted_by_start_sorted segments) Hv')
    as [[Hok _]|(prev & cur & i & Hr' & Hi & Hj & Ho)].
  - unfold _validate_overlaps in Hr. rewrite Hok in Hr. discriminate.
  - unfold _validate_overlaps in Hr. rewrite Hr' in Hr.
    injection Hr as <-.
    pose proof (sorted_starts_le _ (sorted_by_start_sorted segments) Hv')
      as Hss.
    destruct (strongly_sorted_lookup _ _ i (S i) prev cur Hss
                ltac:(lia) Hi Hj) as (sp & sc & Hsp & Hsc & Hle).
    exists prev, cur, sp, sc. split; [reflexivity|].
    split; [|split; [|now repeat split]].
    + rewrite <- (sorted_by_start_perm segments).
      apply list_elem_of_lookup. eauto.
    + rewrite <- (sorted_by_start_perm segments).
      apply list_elem_of_lookup. eauto.
Qed.

Lemma X6_overlap_error_names_pair_witness :
  exists prev cur sp sc,
    TravelRuleValidationError "Trips B and C overlap."
    = TravelRuleValidationError (overlap_message prev cur)
    /\ prev ∈ [late_morning_trip; morning_trip; midday_trip]
    /\ cur ∈ [late_morning_trip; morning_trip; midday_trip]
    /\ overlaps prev cur
    /\ start prev = Some sp /\ start cur = Some sc /\ sp <= sc.
Proof.
  apply (X6_overlap_error_names_pair
           [late_morning_trip; morning_trip; midday_trip]).
  - repeat constructor; apply example_times_valid; reflexivity.
  - reflexivity.
Defined.

(** X7. The duplicate check reports the first receipt id that recurs in
    scan order (segments in input order, receipts in their order), with the
    trip that introduced it as first owner and the trip where it recurs as
    second. *)
Theorem X7_duplicate_error_names_owners segments scanned rid first_owner
    trip rest :
  batch_entries segments = scanned ++ (rid, trip) :: rest ->
  NoDup scanned.*1 ->
  (rid, first_owner) ∈ scanned ->
  _validate_duplicate_receipts segments
  = Raise (TravelRuleValidationError (duplicate_message rid first_owner trip)).
Proof.
  intros Hsplit Hnd Hin. rewrite validate_duplicates_unfold, Hsplit, for_each_app.
  destruct (scan_prefix scanned ∅) as (seen' & -> & Hseen & _).
  { split; [exact Hnd|]. intros k _. apply lookup_empty. }
  cbn [bind for_each].
  now rewrite (entry_check_seen seen' rid trip first_owner (Hseen _ _ Hin)).
Qed.

Lemma X7_duplicate_error_names_owners_witness :
  _validate_duplicate_receipts [hotel_trip; taxi_trip]
  = Raise (TravelRuleValidationError
             "Duplicate receipt id inv-7 in trips H1 and H2.").
Proof.
  apply (X7_duplicate_error_names_owners [hotel_trip; taxi_trip]
           [("inv-7"%string, "H1"%string)] "inv-7" "H1" "H2" []).
  - reflexivity.
  - repeat constructor. intros H. inversion H.
  - left.
Defined.

(** ** What the aggregator puts in its result *)

Lemma body_entry st seg st' :
  calculate_body st seg = Ok st' ->
  exists t,
    entry_of seg t
    /\ st_by_trip st' = st_by_trip st ++ [t]
    /\ st_steps st' = st_steps st ++ Trip.calculation_steps t.
Proof.
  unfold calculate_body.
  destruct (_get_rates_for_country (country_code seg)) as [rates|] eqn:Hr;
    [|discriminate].
  cbn [bind].
  destruct (_calculate_day_allowance seg rates) as [[a day_steps]|] eqn:Hd;
    [|discriminate].
  cbn [bind].
  destruct (_calculate_meal_deductions seg (full_day rates))
    as [[m meal_steps]|] eqn:Hm; [|discriminate].
  cbn [bind].
  destruct (day_allowance_cents _ _ _ _ Hd) as [g ->].
  destruct (meal_deductions_shape _ _ _ _ Hm) as [d ->].
  rewrite sub_cents, !money_cents. intros [= <-].
  eexists. split; [|split; reflexivity].
  exists rates, day_steps, meal_steps.
  cbn [Trip.gross_allowance Trip.meal_deductions Trip.trip_id
         Trip.country_code Trip.net_allowance Trip.calculation_steps].
  unfold trip_steps. rewrite !sub_cents.
  repeat split; try assumption.
  now rewrite <- app_assoc.
Qed.

Lemma loop_entries l st st' :
  for_each calculate_body l st = Ok st' ->
  exists ts,
    Forall2 entry_of l ts
    /\ st_by_trip st' = st_by_trip st ++ ts
    /\ st_steps st' = st_steps st ++ concat (map Trip.calculation_steps ts).
Proof.
  revert st. induction l as [|seg l IH]; intros st; cbn [for_each].
  - intros [= <-]. exists []. split; [constructor|].
    cbn. now rewrite !app_nil_r.
  - destruct (calculate_body st seg) as [st1|] eqn:Hb; [|discriminate].
    cbn [bind]. intros Hloop.
    apply body_entry in Hb as (t & Ht & Hby & Hsteps).
    destruct (IH _ Hloop) as (ts & Hts & Hby' & Hsteps').
    exists (t :: ts). split; [now constructor|].
    rewrite Hby', Hby, Hsteps', Hsteps, <- !app_assoc. now split.
Qed.

Lemma calculate_entries segments r :
  calculate segments = Ok r ->
  Forall2 entry_of (sorted_by_start segments) (by_trip r)
  /\ calculation_steps r = framed_steps r.
Proof.
  intros Hcalc.
  destruct (_validate_segments segments) as [[]|e] eqn:Hval.
  - rewrite (calculate_unfold _ Hval) in Hcalc.
    destruct (for_each calculate_body _ _) as [st|] eqn:Hloop; [|discriminate].
    cbn [bind] in Hcalc. injection Hcalc as <-.
    apply loop_entries in Hloop as (ts & Hts & Hby & Hsteps).
    cbn [st_by_trip st_steps app] in Hby, Hsteps.
    unfold framed_steps. cbn [by_trip calculation_steps totals
      Totals.gross_allowance Totals.meal_deductions Totals.net_allowance].
    rewrite Hby, Hsteps. now split.
  - unfold calculate in Hcalc. rewrite Hval in Hcalc. discriminate.
Qed.

(** X8. The trace of a successful call is the rule-version line, then the
    per-trip traces of [by_trip] one after the other, then one line with the
    three grand totals that the result reports. *)
Theorem X8_trace_is_framed segments r :
  calculate segments = Ok r ->
  calculation_steps r = framed_steps r.
Proof. intros H. now apply calculate_entries in H. Qed.

Lemma X8_trace_is_framed_witness :
  calculation_steps two_trip_result = framed_steps two_trip_result.
Proof.
  exact (X8_trace_is_framed two_trip_batch two_trip_result
           two_trip_batch_calculated).
Defined.

(** X9. The entries of [by_trip] line up with the segments taken in start
    order: the i-th entry carries the trip id and upper-cased country code
    of the i-th segment, the amounts that the day allocator and the meal
    calculator return for it under its country's rates, their difference as
    net allowance, and a trace made of the rates line, the allocator's
    lines, the meal lines and a subtotal line showing those same amounts. *)
Theorem X9_entries_follow_segments segments r :
  calculate segments = Ok r ->
  Forall2 entry_of (sorted_by_start segments) (by_trip r).
Proof. intros H. now apply calculate_entries in H. Qed.

Lemma X9_entries_follow_segments_witness :
  Forall2 entry_of (sorted_by_start two_trip_batch) (by_trip two_trip_result).
Proof.
  exact (X9_entries_follow_segments two_trip_batch two_trip_result
           two_trip_batch_calculated).
Defined.

(** ** The trace of the day allocator *)

Lemma day_fold_lines rates first last l total steps :
  exists total',
    fold_left
      (fun '(total, steps) current =>
         if (current =? first) || (current =? last) then
           (dec_add total (partial_day rates),
            steps ++ [ArrivalDepartureLine current (partial_day rates)])
         else
           (dec_add total (full_day rates),
            steps ++ [FullDayLine current (full_day rates)]))
      l (total, steps)
    = (total', steps ++ map (day_line rates first last) l).
Proof.
  revert total steps. induction l as [|d l IH]; intros total steps.
  - exists total. cbn. now rewrite app_nil_r.
  - rewrite fold_left_step. cbn [map]. unfold day_line at 1. cbv beta iota.
    destruct ((d =? first) || (d =? last)).
    + destruct (IH (dec_add total (partial_day rates))
                  (steps ++ [ArrivalDepartureLine d (partial_day rates)]))
        as [total' ->].
      exists total'. now rewrite <- app_assoc.
    + destruct (IH (dec_add total (full_day rates))
                  (steps ++ [FullDayLine d (full_day rates)]))
        as [total' ->].
      exists total'. now rewrite <- app_assoc.
Qed.

(** X10. For a segment over several dates, the last of them before
    9999-12-31, the day allocator writes under the rates of the segment's
    country one trace line per date of the span, in date order: an arrival/departure line for the first and the
    last date, a full-day line for each date between; for a segment within
    one date it writes a single line. *)
Theorem X10_one_line_per_day seg s e rates :
  start seg = Some s -> end_ seg = Some e ->
  date_of s = date_of e \/ date_of e < MAXORDINAL ->
  _get_rates_for_country (country_code seg) = Ok rates ->
  exists amount steps,
    _calculate_day_allowance seg rates = Ok (amount, steps)
    /\ (date_of s <> date_of e ->
        steps = map (day_line rates (date_of s) (date_of e))
                  (days_span (date_of s) (date_of e))
        /\ length steps = Z.to_nat (date_of e - date_of s + 1))
    /\ (date_of s = date_of e -> length steps = 1%nat).
Proof.
  intros Hs He Hend _. unfold _calculate_day_allowance. rewrite Hs, He.
  destruct (Z.eqb_spec (date_of s) (date_of e)) as [Heq|Hne].
  - destruct (Qle_bool _ _); eexists _, _;
      (split; [reflexivity|split; [intros; contradiction|reflexivity]]).
  - rewrite for_each_day_ok by (destruct Hend; [contradiction|assumption]).
    cbn [bind].
    destruct (day_fold_lines rates (date_of s) (date_of e)
                (days_span (date_of s) (date_of e)) (cents 0) [])
      as [total Hfold].
    cbv zeta. rewrite Hfold. eexists _, _. split; [reflexivity|].
    split; [|intros; contradiction]. intros _. split; [reflexivity|].
    cbn [app]. rewrite length_map. unfold days_span. apply length_seqZ.
Qed.

Lemma X10_one_line_per_day_witness :
  exists amount steps,
    _calculate_day_allowance three_day_trip DOMESTIC_RATES = Ok (amount, steps)
    /\ (739648 <> 739650 ->
        steps = map (day_line DOMESTIC_RATES 739648 739650)
                  (days_span 739648 739650)
        /\ length steps = 3%nat)
    /\ (739648 = 739650 -> length steps = 1%nat).
Proof.
  exact (X10_one_line_per_day three_day_trip
           (mk_datetime 2026 2 1 8 0) (mk_datetime 2026 2 3 18 0)
           DOMESTIC_RATES eq_refl eq_refl (or_intror eq_refl) eq_refl).
Defined.

(** ** Meal records and the span *)

Lemma fold_left_ext_in {A B} (f g : A -> B -> A) l a :
  (forall x b, x ∈ l -> f b x = g b x) ->
  fold_left f l a = fold_left g l a.
Proof.
  revert a. induction l as [|x l IH]; intros a H; [reflexivity|].
  rewrite !fold_left_step, (H x a) by left.
  apply IH. intros y b Hy. apply H. now right.
Qed.

(** Two loop bodies that agree on the dates of the span give the same
    outcome, a raised [OverflowError] included. *)
Lemma for_each_day_ext {S} (f g : S -> date -> S) first last s :
  (forall d b, d ∈ days_span first last -> f b d = g b d) ->
  for_each_day f first last s = for_each_day g first last s.
Proof.
  intros H.
  destruct (Z.lt_ge_cases last MAXORDINAL) as [Hlt|Hge].
  - rewrite !for_each_day_ok by assumption. f_equal.
    now apply fold_left_ext_in.
  - destruct (Z.lt_ge_cases last first) as [Hemp|Hspan].
    + now rewrite !for_each_day_empty by assumption.
    + now rewrite !for_each_day_overflow by assumption.
Qed.

Lemma in_days_span s e d :
  d ∈ days_span (date_of s) (date_of e) <-> in_span s e d = true.
Proof.
  unfold days_span, in_span. rewrite elem_of_seqZ, andb_true_iff, !Z.leb_le.
  lia.
Qed.

Lemma meal_deductions_lookup_only seg seg' s e full_day_rate :
  start seg = Some s -> end_ seg = Some e ->
  start seg' = Some s -> end_ seg' = Some e ->
  trip_id seg' = trip_id seg ->
  (forall d, in_span s e d = true ->
             record_for (provided_meals seg') d
             = record_for (provided_meals seg) d) ->
  _calculate_meal_deductions seg' full_day_rate
  = _calculate_meal_deductions seg full_day_rate.
Proof.
  intros Hs He Hs' He' Hid Hrec.
  unfold _calculate_meal_deductions. rewrite Hs, He, Hs', He', Hid.
  cbv zeta.
  match goal with
  | |- context [for_each_day ?F ?first ?last ?i] =>
      match goal with
      | |- _ = ?rhs =>
          match rhs with
          | context [for_each_day ?G _ _ _] =>
              rewrite (for_each_day_ext F G first last i)
          end
      end
  end; [reflexivity|].
  intros d [total steps] Hd%in_days_span.
  now rewrite !provided_by_day_lookup, (Hrec d Hd).
Qed.

Lemma record_for_cons a meals d :
  record_for (a :: meals) d
  = match record_for meals d with
    | Some entry => Some entry
    | None => if day a =? d then Some a else None
    end.
Proof. unfold record_for. cbn [rev]. now rewrite find_snoc. Qed.

Lemma record_for_in_span s e meals d :
  in_span s e d = true ->
  record_for (List.filter (fun m => in_span s e (day m)) meals) d
  = record_for meals d.
Proof.
  intros Hd. induction meals as [|a meals IH]; [reflexivity|].
  cbn [List.filter]. destruct (in_span s e (day a)) eqn:Ha.
  - now rewrite !record_for_cons, IH.
  - rewrite record_for_cons, IH.
    destruct (Z.eqb_spec (day a) d) as [Heq|_]; [congruence|].
    now destruct (record_for meals d).
Qed.

(** X11. Meal records dated outside the span of the segment count for
    nothing: dropping them changes neither the deduction nor a line of the
    trace. *)
Theorem X11_records_outside_span_ignored seg s e full_day_rate :
  start seg = Some s -> end_ seg = Some e ->
  _calculate_meal_deductions
    (with_meals seg
       (List.filter (fun m => in_span s e (day m)) (provided_meals seg)))
    full_day_rate
  = _calculate_meal_deductions seg full_day_rate.
Proof.
  intros Hs He.
  apply (meal_deductions_lookup_only seg _ s e); try assumption; try reflexivity.
  intros d Hd. cbn [with_meals provided_meals]. now apply record_for_in_span.
Qed.

Lemma X11_records_outside_span_ignored_witness :
  _calculate_meal_deductions three_day_trip_with_meals (cents 2800)
  = _calculate_meal_deductions trip_with_stray_record (cents 2800).
Proof.
  exact (X11_records_outside_span_ignored trip_with_stray_record
           (mk_datetime 2026 2 1 8 0) (mk_datetime 2026 2 3 18 0)
           (cents 2800) eq_refl eq_refl).
Defined.

Lemma no_records_no_deduction tid s e full_day_rate :
  date_of e < MAXORDINAL ->
  _calculate_meal_deductions (mkSegment tid (Some s) (Some e) "" None [] [])
    full_day_rate
  = Ok (cents 0, [NoMealDeductionsLine tid]).
Proof.
  intros Hmax. unfold _calculate_meal_deductions.
  cbn [start end_ provided_meals trip_id provided_by_day_of fold_left].
  rewrite for_each_day_ok by assumption. cbn [bind].
  assert (Hfold : forall l acc,
    fold_left
      (fun '(total, steps) current_day =>
         match (∅ : gmap Z DayMealProvision) !! current_day with
         | None => (total, steps)
         | Some meals =>
             let '(day_total, steps) :=
               fold_left
                 (fun '(day_total, steps) '(meal_key, ratio) =>
                    if getattr meals meal_key then
                      let deduction := _money (dec_mul full_day_rate ratio) in
                      (dec_add day_total deduction,
                       steps ++ [MealProvidedLine current_day meal_key
                                   ratio deduction])
                    else (day_total, steps))
                 MEAL_DEDUCTION_RATES (cents 0, steps) in
             if dec_truthy day_total then
               (dec_add total day_total,
                steps ++ [MealSubtotalLine current_day day_total])
             else (total, steps)
         end) l acc = acc).
  { induction l as [|d l IH]; intros [total steps]; [reflexivity|].
    rewrite fold_left_step, lookup_empty. apply IH. }
  cbv zeta. rewrite Hfold. reflexivity.
Qed.

(** X12. For a segment that ends before 9999-12-31: when no date of the
    span has a meal record the deduction is 0.00 and the trace is the
    single line saying that the trip has no meal deductions. *)
Theorem X12_no_record_no_deduction seg s e full_day_rate :
  start seg = Some s -> end_ seg = Some e ->
  date_of e < MAXORDINAL ->
  (forall d, in_span s e d = true -> record_for (provided_meals seg) d = None) ->
  _calculate_meal_deductions seg full_day_rate
  = Ok (cents 0, [NoMealDeductionsLine (trip_id seg)]).
Proof.
  intros Hs He Hmax Hnone.
  rewrite <- (no_records_no_deduction (trip_id seg) s e full_day_rate Hmax).
  symmetry.
  apply (meal_deductions_lookup_only seg _ s e); try assumption; try reflexivity.
  intros d Hd. cbn [provided_meals]. now rewrite Hnone.
Qed.

Lemma X12_no_record_no_deduction_witness :
  _calculate_meal_deductions three_day_trip (cents 2800)
  = Ok (cents 0, [NoMealDeductionsLine "T1"]).
Proof.
  apply (X12_no_record_no_deduction three_day_trip
           (mk_datetime 2026 2 1 8 0) (mk_datetime 2026 2 3 18 0)
           (cents 2800) eq_refl eq_refl eq_refl).
  intros d _. reflexivity.
Defined.

(** ** Bounds on the amounts *)

Lemma configured_day_deduction_bound rates meals d :
  rates ∈ configured_rates ->
  exists y,
    day_deduction (full_day rates) meals d = cents y
    /\ 0 <= y <= coef (full_day rates).
Proof.
  unfold configured_rates, day_deduction. intros Hin.
  destruct (record_for meals d) as [m|].
  - repeat (apply elem_of_cons in Hin as [->|Hin];
            [destruct (breakfast m), (lunch m), (dinner m);
             eexists; (split; [vm_compute; reflexivity|cbn; lia])|]).
    inversion Hin.
  - exists 0. split; [reflexivity|].
    apply configured_rates_cents in Hin as (f & p & -> & Hf & _). cbn. lia.
Qed.

Lemma deductions_sum_bound rates meals days t :
  rates ∈ configured_rates ->
  exists t',
    fold_left dec_add (map (day_deduction (full_day rates) meals) days)
      (cents t) = cents t'
    /\ t <= t' <= t + Z.of_nat (length days) * coef (full_day rates).
Proof.
  intros Hin. revert t. induction days as [|d days IH]; intros t.
  - exists t. split; [reflexivity|]. cbn [length]. lia.
  - cbn [map]. rewrite fold_left_step.
    destruct (configured_day_deduction_bound rates meals d Hin)
      as (y & -> & Hy).
    rewrite add_cents. destruct (IH (t + y)) as (t' & -> & Ht').
    exists t'. split; [reflexivity|]. rewrite length_cons. nia.
Qed.

Lemma meal_deductions_bounded seg s e rates a steps :
  start seg = Some s -> end_ seg = Some e ->
  _get_rates_for_country (country_code seg) = Ok rates ->
  _calculate_meal_deductions seg (full_day rates) = Ok (a, steps) ->
  exists x,
    a = cents x
    /\ 0 <= x
       <= Z.of_nat (length (days_span (date_of s) (date_of e)))
          * coef (full_day rates).
Proof.
  intros Hs He Hrates Hok.
  rewrite (meal_deductions_value seg s e (full_day rates) a steps Hs He Hok).
  destruct (deductions_sum_bound rates (provided_meals seg)
              (days_span (date_of s) (date_of e)) 0
              (get_rates_configured _ _ Hrates)) as (x & Hx & Hbound).
  exists x. unfold dec_sum. rewrite Hx. split; [reflexivity|lia].
Qed.

(** X13. In a configured country the meal deduction that the calculator
    returns for a segment is never negative and never more than one
    full-day rate for each date of its span; and the calculator returns one
    for every segment that ends before 9999-12-31. *)
Theorem X13_deduction_bounded seg s e rates :
  start seg = Some s -> end_ seg = Some e ->
  _get_rates_for_country (country_code seg) = Ok rates ->
  (forall a steps,
     _calculate_meal_deductions seg (full_day rates) = Ok (a, steps) ->
     exists x,
       a = cents x
       /\ 0 <= x
          <= Z.of_nat (length (days_span (date_of s) (date_of e)))
             * coef (full_day rates))
  /\ (date_of e < MAXORDINAL ->
      exists a steps,
        _calculate_meal_deductions seg (full_day rates) = Ok (a, steps)).
Proof.
  intros Hs He Hrates. split.
  - intros a steps. now apply meal_deductions_bounded.
  - intros Hmax.
    destruct (meal_deductions_total seg s e (full_day rates) Hs He Hmax)
      as [steps H].
    eexists _, steps. exact H.
Qed.

Lemma X13_deduction_bounded_witness :
  exists x steps,
    _calculate_meal_deductions three_day_trip_with_meals (cents 2800)
    = Ok (cents x, steps)
    /\ 0 <= x <= 3 * 2800.
Proof.
  destruct (X13_deduction_bounded three_day_trip_with_meals
              (mk_datetime 2026 2 1 8 0) (mk_datetime 2026 2 3 18 0)
              DOMESTIC_RATES eq_refl eq_refl eq_refl) as [Hbound Hreturns].
  destruct (Hreturns eq_refl) as (a & steps & Hok).
  destruct (Hbound a steps Hok) as (x & -> & Hx).
  exists x, steps. split; [exact Hok|exact Hx].
Defined.

Lemma day_fold_nonneg f p first last l t steps :
  0 <= f -> 0 <= p -> 0 <= t ->
  exists t' steps',
    fold_left
      (fun '(total, steps) current =>
         if (current =? first) || (current =? last) then
           (dec_add total (cents p),
            steps ++ [ArrivalDepartureLine current (cents p)])
         else
           (dec_add total (cents f), steps ++ [FullDayLine current (cents f)]))
      l (cents t, steps)
    = (cents t', steps')
    /\ 0 <= t'.
Proof.
  intros Hf Hp. revert t steps. induction l as [|d l IH]; intros t steps Ht.
  - exists t, steps. now split.
  - rewrite fold_left_step. cbv beta iota.
    destruct ((d =? first) || (d =? last)); rewrite add_cents; apply IH; lia.
Qed.

Lemma day_allowance_nonneg seg rates a steps :
  rates ∈ configured_rates ->
  _calculate_day_allowance seg rates = Ok (a, steps) ->
  exists g, a = cents g /\ 0 <= g.
Proof.
  intros (f & p & -> & Hf & Hp)%configured_rates_cents.
  unfold _calculate_day_allowance.
  destruct (start seg) as [s|], (end_ seg) as [e|]; try discriminate.
  cbn [full_day partial_day].
  destruct (date_of s =? date_of e).
  - destruct (Qle_bool _ _); rewrite money_cents; intros [= <- _].
    + exists p. split; [reflexivity|lia].
    + exists 0. split; [reflexivity|lia].
  - match goal with
    | |- context [for_each_day ?body ?first ?last ?init] =>
        destruct (for_each_day body first last init) as [[total steps']|]
          eqn:Hloop
    end; cbn [bind]; [|discriminate].
    apply for_each_day_inv in Hloop as [Hloop _].
    destruct (day_fold_nonneg f p (date_of s) (date_of e)
                (days_span (date_of s) (date_of e)) 0 [])
      as (t' & steps'' & Hfold & Ht'); try lia.
    cbv zeta in Hfold. rewrite Hfold in Hloop. injection Hloop as -> ->.
    rewrite money_cents. intros [= <- _]. now exists t'.
Qed.

Lemma entry_of_balanced seg t : entry_of seg t -> entry_balanced t.
Proof.
  intros (rates & ds & ms & Hr & Hd & Hm & _ & _ & Hnet & _).
  pose proof (get_rates_configured _ _ Hr) as Hin.
  destruct (day_allowance_nonneg _ _ _ _ Hin Hd) as (g & Hg & Hg0).
  destruct (meal_deductions_need_times _ _ _ _ Hm) as (s & e & Hs & He).
  destruct (meal_deductions_bounded seg s e rates _ _ Hs He Hr Hm)
    as (d & Hded & Hd0 & _).
  exists g, d. rewrite Hnet, Hg, Hded, sub_cents. now repeat split.
Qed.

Lemma entries_balanced l ts :
  Forall2 entry_of l ts -> Forall entry_balanced ts.
Proof.
  induction 1 as [|seg t l ts Ht _ IH]; constructor; [|exact IH].
  eapply entry_of_balanced, Ht.
Qed.

Lemma balanced_sums ts G D :
  Forall entry_balanced ts -> 0 <= G -> 0 <= D ->
  exists G' D',
    fold_left dec_add (map Trip.gross_allowance ts) (cents G) = cents G'
    /\ fold_left dec_add (map Trip.meal_deductions ts) (cents D) = cents D'
    /\ 0 <= G' /\ 0 <= D'.
Proof.
  intros Hts. revert G D.
  induction Hts as [|t ts (g & d & Hg & Hd & _ & Hg0 & Hd0) _ IH];
    intros G D HG HD.
  - exists G, D. now repeat split.
  - cbn [map]. rewrite !fold_left_step, Hg, Hd, !add_cents.
    apply IH; lia.
Qed.

(** X14. In a successful result every amount is a two-place value, no
    gross allowance and no deduction is negative, each per-trip net
    allowance is that trip's gross allowance less its deductions, and the
    grand net allowance is the grand gross allowance less the grand
    deductions. *)
Theorem X14_amounts_balance segments r :
  calculate segments = Ok r ->
  Forall entry_balanced (by_trip r) /\ totals_balanced r.
Proof.
  intros Hcalc.
  assert (Hts : Forall entry_balanced (by_trip r)).
  { eapply entries_balanced, calculate_entries, Hcalc. }
  split; [exact Hts|].
  apply calculate_ok_inv in Hcalc
    as (st & _ & Hloop & _ & Hby & Hgross & Hmeal & Hnet).
  apply loop_balanced in Hloop as (G & D & HG & HD & Hg & Hd & _);
    [|exists 0, 0; repeat split].
  rewrite Hby in Hts.
  destruct (balanced_sums _ 0 0 Hts) as (G' & D' & Hg' & Hd' & HG0 & HD0);
    try lia.
  unfold dec_sum in Hg, Hd. rewrite Hg in Hg'. rewrite Hd in Hd'.
  injection Hg' as <-. injection Hd' as <-.
  exists G, D. rewrite Hgross, Hmeal, Hnet, HG, HD, sub_cents, !money_cents.
  now repeat split.
Qed.

Lemma X14_amounts_balance_witness :
  Forall entry_balanced (by_trip two_trip_result)
  /\ totals_balanced two_trip_result.
Proof.
  exact (X14_amounts_balance two_trip_batch two_trip_result
           two_trip_batch_calculated).
Defined.

Lemma get_rates_code c rates :
  _get_rates_for_country c = Ok rates ->
  upper c = "DE"%string \/ is_Some (INTERNATIONAL_RATE_TABLE !! upper c).
Proof.
  unfold _get_rates_for_country.
  destruct (String.eqb_spec (upper c) "DE") as [Hde|_]; [now left|].
  destruct (INTERNATIONAL_RATE_TABLE !! upper c) eqn:E; [|discriminate].
  intros _. right. eauto.
Qed.

Lemma entry_of_code seg t : entry_of seg t -> reported_code (Trip.country_code t).
Proof.
  intros (rates & _ & _ & Hr & _ & _ & _ & -> & _).
  split; [apply upper_idem|]. eapply get_rates_code, Hr.
Qed.

(** X15. Every country code that a successful result reports is in upper
    case and is DE or a key of the international rate table. *)
Theorem X15_reported_codes segments r :
  calculate segments = Ok r ->
  Forall (fun t => reported_code (Trip.country_code t)) (by_trip r).
Proof.
  intros Hcalc. apply calculate_entries in Hcalc as [Hts _].
  induction Hts as [|seg t l ts Ht _ IH]; constructor; [|exact IH].
  eapply entry_of_code, Ht.
Qed.

Lemma X15_reported_codes_witness :
  Forall (fun t => reported_code (Trip.country_code t))
    (by_trip two_trip_result).
Proof.
  exact (X15_reported_codes two_trip_batch two_trip_result
           two_trip_batch_calculated).
Defined.

(** ** Which country code is refused *)

Lemma unsupported_raises seg st :
  unsupported_country seg ->
  calculate_body st seg
  = Raise (TravelRuleValidationError
             (unsupported_message (upper (country_code seg)))).
Proof.
  intros [Hne Hnone]. unfold calculate_body, _get_rates_for_country.
  destruct (String.eqb_spec (upper (country_code seg)) "DE") as [|_];
    [contradiction|].
  rewrite Hnone. reflexivity.
Qed.

Lemma supported_loop_passes l st :
  Forall valid_timing l ->
  Forall ends_before_last_day l ->
  Forall (fun seg => ~ unsupported_country seg) l ->
  exists st', for_each calculate_body l st = Ok st'.
Proof.
  intros Hv Hends Hsup.
  destruct (loop_spec l st Hv Hends) as [H|(msg & _ & Hex)]; [exact H|].
  exfalso. apply Exists_exists in Hex as (x & Hx & Hun).
  rewrite Forall_forall in Hsup. exact (Hsup x Hx Hun).
Qed.

(** X16. Country codes are resolved trip by trip in start order, after the
    whole batch has passed validation: when the segments that start before
    it all end before 9999-12-31 and have configured countries, the error
    names the upper-cased code of the earliest-starting segment whose
    country is not configured. *)
Theorem X16_first_unsupported_code segments pre seg post :
  _validate_segments segments = Ok tt ->
  sorted_by_start segments = pre ++ seg :: post ->
  Forall ends_before_last_day pre ->
  Forall (fun s => ~ unsupported_country s) pre ->
  unsupported_country seg ->
  calculate segments
  = Raise (TravelRuleValidationError
             (unsupported_message (upper (country_code seg)))).
Proof.
  intros Hval Hsorted Hends Hpre Hun.
  rewrite (calculate_unfold _ Hval), Hsorted, for_each_app.
  destruct (validate_segments_spec segments)
    as [(_ & (_ & Hv & _) & _)|(msg & Hr & _)]; [|congruence].
  rewrite <- (sorted_by_start_perm segments), Hsorted in Hv.
  apply Forall_app in Hv as [Hvpre _].
  destruct (supported_loop_passes pre
              (mkState [RuleVersionLine RULE_VERSION] [] (cents 0) (cents 0))
              Hvpre Hends Hpre) as [st ->].
  cbn [bind for_each]. now rewrite (unsupported_raises seg st Hun).
Qed.

Lemma X16_first_unsupported_code_witness :
  calculate unsupported_batch
  = Raise (TravelRuleValidationError
             "No international per-diem rates configured for country code ZZ.").
Proof.
  apply (X16_first_unsupported_code unsupported_batch
           [mkSegment "U1" (Some (mk_datetime 2026 6 1 8 0))
              (Some (mk_datetime 2026 6 1 18 0)) "nl" None [] []]
           (mkSegment "U2" (Some (mk_datetime 2026 6 2 8 0))
              (Some (mk_datetime 2026 6 2 18 0)) "zz" None [] [])
           [mkSegment "U3" (Some (mk_datetime 2026 6 3 8 0))
              (Some (mk_datetime 2026 6 3 18 0)) "yy" None [] []]).
  - reflexivity.
  - reflexivity.
  - repeat constructor. intros e [= <-]. reflexivity.
  - repeat constructor. intros [Hne Hnone]. vm_compute in Hnone. discriminate.
  - split; [vm_compute; discriminate|reflexivity].
Defined.

(** ** The end of the calendar *)

Lemma day_allowance_overflow seg s e rates :
  start seg = Some s -> end_ seg = Some e ->
  date_of s < date_of e -> MAXORDINAL <= date_of e ->
  _calculate_day_allowance seg rates = Raise OverflowError.
Proof.
  intros Hs He Hdays Hmax. unfold _calculate_day_allowance. rewrite Hs, He.
  destruct (Z.eqb_spec (date_of s) (date_of e)) as [|_]; [lia|].
  rewrite for_each_day_overflow by lia. reflexivity.
Qed.

(** X17. Both date loops step to the next date once they have dealt with
    a date, and there is none after 9999-12-31.  So for a segment that ends
    on that date the meal calculator raises [OverflowError] and the day
    allocator does when the segment covers several dates; and on a batch
    that passes validation and whose countries are all configured,
    [calculate] raises [OverflowError] exactly when some segment ends on
    that date. *)
Theorem X17_last_day_overflows :
  (forall seg s e rates,
     start seg = Some s -> end_ seg = Some e ->
     date_of s <= date_of e -> MAXORDINAL <= date_of e ->
     _get_rates_for_country (country_code seg) = Ok rates ->
     _calculate_meal_deductions seg (full_day rates) = Raise OverflowError
     /\ (date_of s < date_of e ->
         _calculate_day_allowance seg rates = Raise OverflowError))
  /\ (forall segments,
        _validate_segments segments = Ok tt ->
        batch_supported segments ->
        (calculate segments = Raise OverflowError
         <-> Exists ends_on_last_day segments)).
Proof.
  split.
  - intros seg s e rates Hs He Hdays Hmax _. split.
    + now apply (meal_deductions_overflow seg s e).
    + intros Hlt. now apply (day_allowance_overflow seg s e).
  - intros segments Hval Hsup.
    destruct (calculate_cases segments)
      as [(r & Hcalc & _ & _ & _ & _ & Hends)
         |[(msg & Hcalc & [Hrej|Hun])|(Hcalc & _ & Hon)]].
    + split; [rewrite Hcalc; discriminate|].
      intros Hon. exfalso.
      apply Exists_exists in Hon as (seg & Hin & Hon).
      rewrite Forall_forall in Hends.
      exact (ends_before_not_on seg (Hends seg Hin) Hon).
    + exfalso.
      destruct (validate_segments_spec segments)
        as [(_ & Hacc & _)|(msg' & Hr & _)]; [|congruence].
      exact (accepted_not_rejected segments Hacc Hrej).
    + exfalso. apply Exists_exists in Hun as (seg & Hin & Hun).
      unfold batch_supported in Hsup. rewrite Forall_forall in Hsup.
      exact (Hsup seg Hin Hun).
    + split; [intros _; exact Hon|intros _; exact Hcalc].
Qed.

Lemma X17_last_day_overflows_witness :
  _calculate_day_allowance last_night_trip DOMESTIC_RATES
  = Raise OverflowError
  /\ calculate [last_day_trip] = Raise OverflowError.
Proof.
  split.
  - apply (proj1 X17_last_day_overflows last_night_trip
             (mk_datetime 9999 12 30 8 0) (mk_datetime 9999 12 31 18 0)
             DOMESTIC_RATES eq_refl eq_refl);
      [vm_compute; discriminate|vm_compute; discriminate
      |reflexivity|reflexivity].
  - apply (proj2 X17_last_day_overflows [last_day_trip]).
    + reflexivity.
    + repeat constructor. intros [Hne _]. apply Hne. reflexivity.
    + left. exists (mk_datetime 9999 12 31 18 0).
      split; [reflexivity|vm_compute; discriminate].
Defined.

(** X18. For a segment that ends before 9999-12-31 the meal deduction
    under the rates of its country is the sum, over the dates of its span,
    of the rounded 20% (breakfast), 40% (lunch) and 40% (dinner) of the
    full-day rate for the meals flagged in the record of that date (the
    last one, should several records carry the date), and nothing for a
    date without a record; and whenever a turn of the loop of [calculate]
    succeeds, the entry it appends carries that sum, taken at the full-day
    rate of the segment's country. *)
Theorem X18_meal_deductions_sum :
  (forall segment s e rates,
     start segment = Some s -> end_ segment = Some e ->
     date_of e < MAXORDINAL ->
     _get_rates_for_country (country_code segment) = Ok rates ->
     exists steps,
       _calculate_meal_deductions segment (full_day rates)
       = Ok (dec_sum
               (map (day_deduction (full_day rates) (provided_meals segment))
                  (days_span (date_of s) (date_of e))),
             steps))
  /\ (forall st segment st',
        calculate_body st segment = Ok st' ->
        exists rates s e t,
          _get_rates_for_country (country_code segment) = Ok rates
          /\ start segment = Some s /\ end_ segment = Some e
          /\ st_by_trip st' = st_by_trip st ++ [t]
          /\ Trip.meal_deductions t
             = dec_sum
                 (map (day_deduction (full_day rates) (provided_meals segment))
                    (days_span (date_of s) (date_of e)))).
Proof.
  split.
  - intros segment s e rates Hs He Hmax _.
    now apply meal_deductions_total.
  - intros st segment st'
      (rates & g & d & ds & ms & steps & Hr & _ & Hm & ->)%body_ok_inv.
    destruct (meal_deductions_need_times _ _ _ _ Hm) as (s & e & Hs & He).
    pose proof (meal_deductions_value segment s e (full_day rates) _ _
                  Hs He Hm) as Hd.
    exists rates, s, e, (trip_entry segment g d steps).
    repeat split; assumption.
Qed.

Lemma X18_meal_deductions_sum_witness :
  exists steps,
    _calculate_meal_deductions three_day_trip_with_meals (cents 2800)
    = Ok (cents 1680, steps).
Proof.
  apply (proj1 X18_meal_deductions_sum three_day_trip_with_meals
           (mk_datetime 2026 2 1 8 0) (mk_datetime 2026 2 3 18 0)
           DOMESTIC_RATES eq_refl eq_refl eq_refl eq_refl).
Defined.

(** X19. A deduction is taken even from a day that earned nothing: for a
    segment within one calendar date before 9999-12-31, shorter than eight
    hours, whose date has a meal record with some meal flagged, the gross
    allowance is 0.00, the deduction is positive, the per-trip net
    allowance is their difference and negative, and so is the grand net
    total. *)
Theorem X19_negative_net seg s e rates m :
  start seg = Some s -> end_ seg = Some e ->
  s < e -> date_of s = date_of e -> date_of e < MAXORDINAL ->
  dt_sub e s < EIGHT_HOURS ->
  _get_rates_for_country (country_code seg) = Ok rates ->
  record_for (provided_meals seg) (date_of s) = Some m ->
  breakfast m || lunch m || dinner m = true ->
  NoDup (map receipt_id (receipts seg)) ->
  exists r t,
    calculate [seg] = Ok r
    /\ by_trip r = [t]
    /\ Trip.gross_allowance t = cents 0
    /\ dec_ltb (cents 0) (Trip.meal_deductions t) = true
    /\ Trip.net_allowance t
       = dec_sub (Trip.gross_allowance t) (Trip.meal_deductions t)
    /\ dec_ltb (Trip.net_allowance t) (cents 0) = true
    /\ dec_ltb (Totals.net_allowance (totals r)) (cents 0) = true.
Proof.
  intros Hs He Hlt Hday Hmax Hshort Hrates Hrec Hflag Hnd.
  pose proof (single_segment_accepted seg s e Hs He Hlt Hnd) as Hacc.
  assert (Hends : Forall ends_before_last_day [seg]).
  { repeat constructor. now apply (ends_before_last_day_intro seg e). }
  destruct (calculate_spec [seg] Hends)
    as [(r & Hcalc & _)|(msg & _ & [Hrej|Hun])].
  - exists r.
    pose proof Hcalc as Hinv.
    apply calculate_ok_inv in Hinv as (st & _ & Hloop & _ & Hby & _ & _ & Hnet).
    change (sorted_by_start [seg]) with [seg] in Hloop.
    cbn [for_each] in Hloop.
    destruct (calculate_body _ seg) as [st1|] eqn:Hbody; [|discriminate].
    cbn [bind] in Hloop. injection Hloop as <-.
    apply body_ok_inv in Hbody
      as (rates' & g & d & ds & ms & steps & Hr' & Hd & Hm & ->).
    rewrite Hrates in Hr'. injection Hr' as <-.
    destruct (single_day_allowance seg s e rates Hs He Hday Hrates)
      as [ds' Hd'].
    rewrite Hd in Hd'.
    replace (EIGHT_HOURS <=? dt_sub e s) with false in Hd'
      by (symmetry; apply Z.leb_gt; exact Hshort).
    injection Hd' as -> _.
    destruct (meal_deductions_total seg s e (full_day rates) Hs He Hmax)
      as [ms' Hm'].
    rewrite Hm, <- Hday, single_span in Hm'. cbn [map] in Hm'.
    unfold day_deduction in Hm'. rewrite Hrec in Hm'.
    destruct (configured_meals_positive rates (breakfast m) (lunch m)
                (dinner m) (get_rates_configured _ _ Hrates) Hflag)
      as (x & Hx & Hpos).
    rewrite Hx in Hm'. unfold dec_sum in Hm'. cbn [fold_left] in Hm'.
    rewrite add_cents in Hm'. injection Hm' as -> _.
    exists (trip_entry seg 0 x steps).
    cbn [st_by_trip st_gross_total st_meal_deduction_total app] in *.
    rewrite Hnet, !add_cents, sub_cents, money_cents.
    cbn [trip_entry Trip.gross_allowance Trip.meal_deductions
           Trip.net_allowance].
    rewrite sub_cents.
    split; [exact Hcalc|]. split; [exact Hby|]. split; [reflexivity|].
    unfold dec_ltb, scaled, cents. cbn [coef expo].
    rewrite Z.min_id, Z.sub_diag, Z.pow_0_r, !Z.mul_1_r.
    repeat split; apply Z.ltb_lt; lia.
  - exfalso. now apply (accepted_not_rejected [seg]).
  - exfalso. apply Exists_cons in Hun as [Hun|Hun]; [|inversion Hun].
    now apply (supported_not_unsupported seg rates).
Qed.

Lemma X19_negative_net_witness :
  exists r t,
    calculate [short_trip_with_breakfast] = Ok r
    /\ by_trip r = [t]
    /\ Trip.gross_allowance t = cents 0
    /\ dec_ltb (cents 0) (Trip.meal_deductions t) = true
    /\ Trip.net_allowance t
       = dec_sub (Trip.gross_allowance t) (Trip.meal_deductions t)
    /\ dec_ltb (Trip.net_allowance t) (cents 0) = true
    /\ dec_ltb (Totals.net_allowance (totals r)) (cents 0) = true.
Proof.
  apply (X19_negative_net short_trip_with_breakfast
           (mk_datetime 2026 3 5 9 0) (mk_datetime 2026 3 5 12 0)
           (mkRates (cents 4000) (cents 2700))
           (mkMeals (_ymd2ord 2026 3 5) true false false)).
  - reflexivity.
  - reflexivity.
  - reflexivity.
  - reflexivity.
  - reflexivity.
  - reflexivity.
  - vm_compute. reflexivity.
  - reflexivity.
  - reflexivity.
  - constructor.
Defined.
